(** * Sublive: a shallow embedding of the subdomain liveness scanner

    The development follows [sublive.go]:

    - [Go]: the pieces of the Go runtime and standard library the program
      relies on ([strings.Split] on a one-byte separator, channels with
      [send]/[recv]/[close], and the panic/normal-return outcome of a
      goroutine);
    - the candidate source ([loadWordlistFromFile], [loadWordlistFromStdin],
      [uniqStrings] and the word selection at the top of [main]);
    - the prober and the [worker] loop;
    - the collector goroutine of [main] (dedup registry and recursion
      expander);
    - the classifier and report at the end of [main].

    Integers of Go type [int] are modelled in [Z]; the only arithmetic the
    program performs on them is the [counts[..]++] of the classifier, whose
    64-bit wrap-around is written out. Strings are byte strings. *)

From Stdlib Require Import ZArith Ascii String.
From stdpp Require Import gmap strings list fin_maps pretty sorting.

Local Open Scope Z_scope.

(** ** Go runtime and library primitives *)

Module Go.

(** Outcome of running a piece of a goroutine: it either returns normally
    or panics; an unrecovered panic in any goroutine terminates the whole
    program. [sublive.go] contains no [recover]. *)
Inductive exec (A : Type) : Type :=
| Done (a : A)
| Panic (msg : string).
Global Arguments Done {A} a.
Global Arguments Panic {A} msg.

Global Instance exec_ret : MRet exec := λ A a, Done a.
Global Instance exec_bind : MBind exec := λ A B f m,
  match m with
  | Done a => f a
  | Panic msg => Panic msg
  end.

Global Instance exec_fmap : FMap exec := λ A B f m,
  match m with
  | Done a => Done (f a)
  | Panic msg => Panic msg
  end.

(** A channel: the buffered elements, oldest first, and whether [close]
    has been called on it. The capacity (10000 for both channels of the
    program) only decides when a sender has to wait for a receiver; the
    model records a send at the moment it completes. *)
Record chan (A : Type) : Type := mkChan { buf : list A; closed : bool }.
Global Arguments mkChan {A} buf closed.
Global Arguments buf {A} c.
Global Arguments closed {A} c.

(** [make(chan A, n)] *)
Definition make {A} : chan A := mkChan [] false.

(** [c <- x]: sending on a closed channel panics. *)
Definition send {A} (c : chan A) (x : A) : exec (chan A) :=
  if closed c then Panic "send on closed channel"
  else Done (mkChan (buf c ++ [x]) false).

(** [close(c)]: closing a closed channel panics. *)
Definition close {A} (c : chan A) : exec (chan A) :=
  if closed c then Panic "close of closed channel"
  else Done (mkChan (buf c) true).

(** What [x, ok := <-c] can observe. *)
Inductive received (A : Type) : Type :=
| Value (x : A) (rest : chan A)   (* ok = true *)
| Closed                          (* ok = false: closed and drained *)
| Empty.                          (* nothing buffered yet: the receiver waits *)
Global Arguments Value {A} x rest.
Global Arguments Closed {A}.
Global Arguments Empty {A}.

Definition recv {A} (c : chan A) : received A :=
  match buf c with
  | x :: rest => Value x (mkChan rest (closed c))
  | [] => if closed c then Closed else Empty
  end.

(** [strings.Split(s, sep)] for a separator of one byte: the fields
    between the occurrences of [sep]; a string with no separator is its
    own single field, and the empty string splits into one empty field. *)
Fixpoint Split (s : string) (sep : ascii) : list string :=
  match s with
  | EmptyString => [EmptyString]
  | String a s' =>
      if Ascii.eqb a sep then EmptyString :: Split s' sep
      else match Split s' sep with
           | field :: fields => String a field :: fields
           | [] => [String a EmptyString]
           end
  end.

End Go.

Import Go.

(** ** Data model *)

(** [type Result struct { Subdomain string; Status int; IP string }] *)
Record Result : Type := mkResult {
  Subdomain : string;
  Status : Z;
  IP : string
}.

Global Instance Result_eq_dec : EqDecision Result.
Proof. solve_decision. Defined.

(** The byte ['.'] the collector splits on. *)
Definition dot : ascii := "."%char.

(** ** Candidate source: word lists *)

(** [var defaultWords = []string{...}] *)
Definition defaultWords : list string :=
  ["www"; "mail"; "ftp"; "api"; "dev"; "test"; "stage"; "admin"; "portal";
   "beta"; "shop"; "cdn"; "m"; "mobile"; "secure"; "webmail"].

(** What a [bufio.Scanner] delivers over a reader: the lines it scanned and
    whether [s.Err()] is non-nil afterwards. *)
Record scanned : Type := mkScanned { lines : list string; scanErr : bool }.

(** [os.Open(path)] followed by a scan of the file. *)
Inductive opened : Type :=
| OpenErr
| Opened (sc : scanned).

(** [os.Stdin.Stat()] and, when data is piped, the scan of standard input. *)
Inductive stdin_state : Type :=
| StatErr
| CharDevice
| Piped (sc : scanned).

(** Normal continuation of [main], or [os.Exit(code)]. *)
Inductive startup (A : Type) : Type :=
| Exit (code : Z)
| Continue (a : A).
Global Arguments Exit {A} code.
Global Arguments Continue {A} a.

Section CandidateSource.

(** [strings.TrimSpace], a library function the loaders apply to each line. *)
Variable TrimSpace : string → string.

(** The loop shared by both loaders:
    each scanned line is trimmed and kept when the trimmed line is not
    empty. *)
Fixpoint scanWords (ls : list string) : list string :=
  match ls with
  | [] => []
  | l :: ls' =>
      let line := TrimSpace l in
      if decide (line ≠ "") then line :: scanWords ls' else scanWords ls'
  end.

(** [loadWordlistFromFile]: the words and whether the returned error is
    non-nil. A nil slice is the empty list. *)
Definition loadWordlistFromFile (f : opened) : list string * bool :=
  match f with
  | OpenErr => ([], true)
  | Opened sc => (scanWords (lines sc), scanErr sc)
  end.

(** [loadWordlistFromStdin] *)
Definition loadWordlistFromStdin (i : stdin_state) : list string * bool :=
  match i with
  | StatErr => ([], true)
  | Piped sc => (scanWords (lines sc), scanErr sc)
  | CharDevice => ([], false)
  end.

(** The built-in defaults of tier [t] ([switch *t]). *)
Definition tierWords (t : Z) : list string :=
  if t =? 1 then
    defaultWords ++
      ["app"; "gateway"; "auth"; "accounts"; "login"; "payments"; "images";
       "static"; "docs"; "status"; "internal"; "ops"; "graphql"; "socket";
       "router"; "db"]
  else if t =? 2 then
    defaultWords ++ ["app"; "auth"; "login"; "api"; "static"; "cdn"]
  else if t =? 3 then defaultWords
  else defaultWords.

(** The word source of [main]: [-w] file, else piped standard input, else
    the tier's defaults. [fs] is the file system as [os.Open] sees it. *)
Definition chooseWords (wordlistPath : string) (t : Z)
    (fs : string → opened) (i : stdin_state) : startup (list string) :=
  if decide (wordlistPath ≠ "") then
    let '(w, err) := loadWordlistFromFile (fs wordlistPath) in
    if err then Exit 1 else Continue w
  else
    let '(piped, _) := loadWordlistFromStdin i in
    if decide (0 < length piped)%nat then Continue piped
    else Continue (tierWords t).

End CandidateSource.

(** [uniqStrings]: [m] is the set of strings seen, [out] the output so far. *)
Definition uniqStep (acc : gset string * list string) (s : string)
    : gset string * list string :=
  let '(m, out) := acc in
  if decide (s = "") then (m, out)
  else if decide (s ∈ m) then (m, out)
  else ({[s]} ∪ m, out ++ [s]).

Definition uniqStrings (input : list string) : list string :=
  (foldl uniqStep (∅, []) input).2.

(** [candidates = append(candidates, w+"."+*domain)] for each word. *)
Definition candidates (words : list string) (domain : string) : list string :=
  (λ w, (w +:+ ".") +:+ domain) <$> words.

(** The name fragments of a run: the word selection of [main] followed by
    [words = uniqStrings(words)]. *)
Definition fragments (TrimSpace : string → string) (wordlistPath : string)
    (t : Z) (fs : string → opened) (i : stdin_state) : startup (list string) :=
  match chooseWords TrimSpace wordlistPath t fs i with
  | Exit code => Exit code
  | Continue words => Continue (uniqStrings words)
  end.

(** The seed of a run, from the top of [main]: without a domain the
    program prints its usage and exits with code 1 before it reads any
    word list; otherwise the fragments become candidate names. *)
Definition seed (TrimSpace : string → string) (wordlistPath domain : string)
    (t : Z) (fs : string → opened) (i : stdin_state) : startup (list string) :=
  if decide (domain = "") then Exit 1
  else
    match fragments TrimSpace wordlistPath t fs i with
    | Exit code => Exit code
    | Continue words => Continue (candidates words domain)
    end.

(** The flag [deep] of [main]: tier 1 enables recursion. *)
Definition deep (t : Z) : bool := t =? 1.

(** ** Prober and worker *)

(** [*http.Response], of which the program reads [StatusCode]. *)
Record Response : Type := mkResponse { StatusCode : Z }.

(** What [client.Do] returns: [resp] ([None] for nil) and whether [err] is
    non-nil. *)
Record DoResult : Type := mkDo { resp : option Response; err : bool }.

(** The libraries as one probe sees them: [net.LookupHost] (addresses and
    whether the error is non-nil); [http.NewRequestWithContext] for a GET
    on a URL ([true] when it returns a request, [false] when the URL does
    not parse and it returns nil with an error); and [client.Do] on such a
    request, identified with its URL, the 8-second request timeout and any
    redirects it follows included in its answer. *)
Record Net : Type := mkNet {
  LookupHost : string → list string * bool;
  NewRequest : string → bool;
  Do : string → DoResult
}.

(** What a worker does to the outside world besides publishing: a lookup,
    a call of [client.Do], a line printed. *)
Inductive effect : Type :=
| Resolve (host : string)
| Get (url : string)
| Printed (text : string).

Definition newline : string := String (ascii_of_nat 10) EmptyString.

(** [req, _ := http.NewRequestWithContext(reqCtx, "GET", url, nil)] followed
    by [client.Do(req)]: the error of the first is discarded, and
    [client.Do] dereferences its argument, so a nil request panics. *)
Definition clientDo (net : Net) (url : string) : exec DoResult :=
  if NewRequest net url then mret (Do net url)
  else Panic "invalid memory address or nil pointer dereference".

(** One probe (the body of the [case sub, ok := <-jobs] branch up to the
    publication): the Result and the effects in program order. *)
Definition probe (net : Net) (verbose : bool) (sub : string)
    : exec (Result * list effect) :=
  let '(ips, _) := LookupHost net sub in
  let ip := match ips with a :: _ => a | [] => "" end in
  r1 ← clientDo net ("http://" +:+ sub);
  '(status, gets) ←
    match resp r1, err r1 with
    | Some rsp, false => mret (StatusCode rsp, [Get ("http://" +:+ sub)])
    | _, _ =>
        r2 ← clientDo net ("https://" +:+ sub);
        mret (match resp r2, err r2 with
              | Some rsp2, false => StatusCode rsp2
              | _, _ => 0
              end,
              [Get ("http://" +:+ sub); Get ("https://" +:+ sub)])
    end;
  let prints :=
    if verbose
    then [Printed ("[+] checked " +:+ sub +:+ " -> " +:+ pretty status
                     +:+ " " +:+ ip +:+ newline)]
    else [] in
  mret (mkResult sub status ip, [Resolve sub] ++ gets ++ prints).

(** What one pass through the worker's [select] observes. *)
Inductive selected : Type :=
| CtxDone                          (* [<-ctx.Done()] *)
| JobsClosed                       (* [sub, ok := <-jobs] with [ok = false] *)
| Job (sub : string) (net : Net).  (* a candidate, and the network during its probe *)

(** State a worker acts on: the result stream and the log of its effects. *)
Record wstate : Type := mkW { results : chan Result; log : list effect }.

(** The [for { select { ... } }] loop of [worker] over the sequence of
    things its [select] observes; the worker returns at the first
    [CtxDone] or [JobsClosed], and is waiting in [select] when the
    sequence ends. *)
Fixpoint worker (verbose : bool) (sel : list selected) (w : wstate)
    : exec wstate :=
  match sel with
  | [] => mret w
  | CtxDone :: _ => mret w
  | JobsClosed :: _ => mret w
  | Job sub net :: sel' =>
      '(r, effs) ← probe net verbose sub;
      res ← send (results w) r;
      worker verbose sel' (mkW res (log w ++ effs))
  end.

(** The candidates a worker takes off the job queue during such a run. *)
Fixpoint consumed (sel : list selected) : list string :=
  match sel with
  | Job sub _ :: sel' => sub :: consumed sel'
  | _ => []
  end.

(** ** Collector: dedup registry and recursion expander *)

(** [if _, ok := found[r.Subdomain]; !ok { found[r.Subdomain] = r }] *)
Definition record (r : Result) (found : gmap string Result)
    : gmap string Result :=
  match found !! Subdomain r with
  | Some _ => found
  | None => <[Subdomain r := r]> found
  end.

(** [if _, ok := found[c]; !ok { jobs <- c }] *)
Definition enqueue (found : gmap string Result) (c : string)
    (jobs : chan string) : exec (chan string) :=
  match found !! c with
  | Some _ => mret jobs
  | None => send jobs c
  end.

(** The three names built from [sub := parts[0]]. *)
Definition permutations (sub domain : string) : list string :=
  [ (sub +:+ "-stage.") +:+ domain;
    (sub +:+ "-dev.") +:+ domain;
    (("api." +:+ sub) +:+ ".") +:+ domain ].

(** [if deep && r.Status != 0 { ... }]: the recursion step for one result. *)
Definition expand (deep : bool) (domain : string) (r : Result)
    (found : gmap string Result) (jobs : chan string) : exec (chan string) :=
  if deep && negb (Status r =? 0) then
    let parts := Split (Subdomain r) dot in
    if decide (3 ≤ length parts)%nat then
      let sub := default "" (head parts) in
      let c1 := (sub +:+ "-stage.") +:+ domain in
      let c2 := (sub +:+ "-dev.") +:+ domain in
      let c3 := (("api." +:+ sub) +:+ ".") +:+ domain in
      jobs ← enqueue found c1 jobs;
      jobs ← enqueue found c2 jobs;
      enqueue found c3 jobs
    else mret jobs
  else mret jobs.

(** Shared state of the pipeline the collector acts on. *)
Record pipeline : Type := mkPipeline {
  found : gmap string Result;
  jobs : chan string
}.

(** One iteration of [for r := range results]. *)
Definition collect (deep : bool) (domain : string) (r : Result)
    (p : pipeline) : exec pipeline :=
  let found' := record r (found p) in
  jobs' ← expand deep domain r found' (jobs p);
  mret (mkPipeline found' jobs').

(** What happens to the shared state while the collector runs: it consumes
    a result; the lifecycle coordinator closes the job queue
    ([close(jobs)], after seeding when not deep, after the 6-second sleep
    when deep); a worker takes a candidate off the queue. *)
Inductive event : Type :=
| Consume (r : Result)
| CloseJobs
| Take.

Global Instance event_eq_dec : EqDecision event.
Proof. solve_decision. Defined.

Definition step (deep : bool) (domain : string) (e : event) (p : pipeline)
    : exec pipeline :=
  match e with
  | Consume r => collect deep domain r p
  | CloseJobs => j ← close (jobs p); mret (mkPipeline (found p) j)
  | Take =>
      match recv (jobs p) with
      | Value _ rest => mret (mkPipeline (found p) rest)
      | _ => mret p
      end
  end.

Fixpoint run (deep : bool) (domain : string) (es : list event) (p : pipeline)
    : exec pipeline :=
  match es with
  | [] => mret p
  | e :: es' => p' ← step deep domain e p; run deep domain es' p'
  end.

(** The results the collector consumes during a run, in order. *)
Definition consumedResults (es : list event) : list Result :=
  omap (λ e, match e with Consume r => Some r | _ => None end) es.

(** The empty registry and the open, seeded job queue the collector starts on. *)
Definition start (seeded : list string) : pipeline :=
  mkPipeline ∅ (mkChan seeded false).

(** ** Classifier and report *)

(** Go's [int] is 64 bits wide on the platforms the program targets. *)
Definition wrap64 (z : Z) : Z := (z + 2 ^ 63) mod 2 ^ 64 - 2 ^ 63.

(** [counts[k]++]: a missing key reads as 0. *)
Definition incr (k : string) (counts : gmap string Z) : gmap string Z :=
  <[k := wrap64 (default 0 (counts !! k) + 1)]> counts.

(** [counts := map[string]int{"live": 0, "404": 0, "301": 0, "other": 0, "unreachable": 0}] *)
Definition counts0 : gmap string Z :=
  <["live" := 0]> (<["404" := 0]> (<["301" := 0]> (<["other" := 0]>
    (<["unreachable" := 0]> ∅)))).

(** The body of the classification loop for one result. *)
Definition classifyStep (counts : gmap string Z) (r : Result) : gmap string Z :=
  if Status r =? 0 then incr "unreachable" counts
  else if Status r =? 404 then incr "404" counts
  else if (Status r =? 301) || (Status r =? 302) then incr "301" counts
  else if (200 <=? Status r) && (Status r <? 400) then incr "live" counts
  else incr "other" counts.

(** [for _, r := range subs { ... }] *)
Definition classify (subs : list Result) : gmap string Z :=
  foldl classifyStep counts0 subs.

(** [fmt.Sprintf("%s %d", r.Subdomain, r.Status)] *)
Definition line (r : Result) : string :=
  (Subdomain r +:+ " ") +:+ pretty (Status r).

(** [sort.Strings]: the list rearranged into increasing order, the order
    being Go's [<] on strings (byte-wise lexicographic), [String.le]. *)
Definition sortStrings (l : list string) : list string :=
  merge_sort String.le l.

(** The test of the [-x] filter: [r.Status >= 200 && r.Status < 400]. *)
Definition isLive (r : Result) : bool :=
  (200 <=? Status r) && (Status r <? 400).

(** The lines [main] writes: [lines] is built and sorted first; with [-x]
    the output is rebuilt from [subs]. *)
Definition outLines (sortLive : bool) (subs : list Result) : list string :=
  let lines := sortStrings (line <$> subs) in
  if sortLive then line <$> filter (λ r, isLive r = true) subs
  else lines.

(** [subs] lists the values of [found] in the order the [range] over the map
    happens to visit them; Go leaves that order unspecified. *)
Definition enumerates (found : gmap string Result) (subs : list Result) : Prop :=
  subs ≡ₚ (map_to_list found).*2.

(** ** The properties as the specification words them *)

(** The five buckets of the classifier and the key of [counts] each is
    tallied under. *)
Inductive bucket : Type := unreachable | notFound | redirect | live | other.

Global Instance bucket_eq_dec : EqDecision bucket.
Proof. solve_decision. Defined.

Definition key (b : bucket) : string :=
  match b with
  | unreachable => "unreachable"
  | notFound => "404"
  | redirect => "301"
  | live => "live"
  | other => "other"
  end.

(** The assignment of a status to its bucket, in the words of the
    specification. *)
Inductive assigned : Z → bucket → Prop :=
| assigned_unreachable : assigned 0 unreachable
| assigned_notFound : assigned 404 notFound
| assigned_redirect s : s = 301 ∨ s = 302 → assigned s redirect
| assigned_live s : 200 ≤ s < 400 → s ≠ 301 → s ≠ 302 → assigned s live
| assigned_other s :
    s ≠ 0 → s ≠ 404 → ¬ (200 ≤ s < 400) → assigned s other.

(** A scheme yields a response when [client.Do] returns a response and no
    error. *)
Definition responds (d : DoResult) : Prop := is_Some (resp d) ∧ err d = false.

Global Instance responds_dec d : Decision (responds d).
Proof. unfold responds. apply _. Defined.

(** The status code of a scheme's answer, when it yields a response. *)
Definition statusOf (d : DoResult) : option Z :=
  match resp d, err d with
  | Some rsp, false => Some (StatusCode rsp)
  | _, _ => None
  end.

(** The requests of a probe can be built: the HTTP one, and the HTTPS one
    if the probe gets as far as needing it. *)
Definition builds (net : Net) (sub : string) : Prop :=
  NewRequest net ("http://" +:+ sub) = true
  ∧ (¬ responds (Do net ("http://" +:+ sub)) →
     NewRequest net ("https://" +:+ sub) = true).

Global Instance builds_dec net sub : Decision (builds net sub).
Proof. unfold builds. apply _. Defined.

(** The same for every candidate a worker takes during a run. *)
Fixpoint buildable (sel : list selected) : Prop :=
  match sel with
  | Job sub net :: sel' => builds net sub ∧ buildable sel'
  | _ => True
  end.

(** The outcome of a probe whose requests can be built, as the contract
    of the prober words it: the address is the first one resolved, if any;
    the status is the code of the HTTP answer, else of the HTTPS answer,
    else 0; HTTPS is tried only when HTTP did not respond. *)
Definition probed (net : Net) (verbose : bool) (sub : string)
    : Result * list effect :=
  let http := Do net ("http://" +:+ sub) in
  let https := Do net ("https://" +:+ sub) in
  let ip := match (LookupHost net sub).1 with a :: _ => a | [] => "" end in
  let status := match statusOf http with
                | Some code => code
                | None => default 0 (statusOf https)
                end in
  (mkResult sub status ip,
   [Resolve sub; Get ("http://" +:+ sub)]
   ++ (if decide (responds http) then [] else [Get ("https://" +:+ sub)])
   ++ (if verbose
       then [Printed ("[+] checked " +:+ sub +:+ " -> " +:+ pretty status
                        +:+ " " +:+ ip +:+ newline)]
       else [])).

(** The probes of a worker's run: one for each candidate it takes before
    it returns. *)
Fixpoint probes (verbose : bool) (sel : list selected)
    : list (Result * list effect) :=
  match sel with
  | Job sub net :: sel' => probed net verbose sub :: probes verbose sel'
  | _ => []
  end.

Global Instance assigned_dec s b : Decision (assigned s b).
Proof.
  destruct b.
  - destruct (decide (s = 0)) as [->|Hs];
      [left; constructor|right; by inversion 1].
  - destruct (decide (s = 404)) as [->|Hs];
      [left; constructor|right; by inversion 1].
  - destruct (decide (s = 301 ∨ s = 302)) as [Hs|Hs];
      [left; by constructor|right; by inversion 1].
  - destruct (decide (200 ≤ s < 400 ∧ s ≠ 301 ∧ s ≠ 302)) as [Hs|Hs];
      [left; constructor; tauto|right; inversion 1; tauto].
  - destruct (decide (s ≠ 0 ∧ s ≠ 404 ∧ ¬ (200 ≤ s < 400))) as [Hs|Hs];
      [left; constructor; tauto|right; inversion 1; tauto].
Defined.

(** How many results of a list fall in a bucket. *)
Definition tally (b : bucket) (subs : list Result) : nat :=
  length (filter (λ r, assigned (Status r) b) subs).

(** The leftmost label of a name. *)
Definition firstLabel (name : string) : string :=
  default "" (head (Split name dot)).

(** The candidates of a list that the registry does not hold. *)
Definition absent (found : gmap string Result) (cs : list string) : list string :=
  filter (λ c, found !! c = None) cs.

(** The first result recorded for a key among the results consumed. *)
Definition firstFor (k : string) (rs : list Result) : option Result :=
  head (filter (λ r, Subdomain r = k) rs).

(** The recursion step read as a loop over a list of names: each is offered
    to [enqueue] in turn, and a panic ends the loop. *)
Fixpoint enqueueAll (found : gmap string Result) (cs : list string)
    (jobs : chan string) : exec (chan string) :=
  match cs with
  | [] => mret jobs
  | c :: cs' => jobs' ← enqueue found c jobs; enqueueAll found cs' jobs'
  end.

(** ** A sample run

    A shallow scan of [example.com] whose seed lists [www] twice: the
    second result for [www.example.com] reaches the collector last. *)
Definition sampleEvents : list event :=
  [Consume (mkResult "www.example.com" 200 "1.2.3.4"); Take; CloseJobs; Take;
   Consume (mkResult "mail.example.com" 0 ""); Take;
   Consume (mkResult "www.example.com" 404 "5.6.7.8")].

Definition sampleFinal : pipeline :=
  mkPipeline
    (<["www.example.com" := mkResult "www.example.com" 200 "1.2.3.4"]>
       (<["mail.example.com" := mkResult "mail.example.com" 0 ""]> ∅))
    (mkChan [] true).

(** The values of that run's registry as a [range] may list them. *)
Definition sampleSubs : list Result :=
  [mkResult "www.example.com" 200 "1.2.3.4"; mkResult "mail.example.com" 0 ""].

(** A registry of two live hosts, and its values listed [b] first. *)
Definition liveFound : gmap string Result :=
  <["a.example.com" := mkResult "a.example.com" 200 "1.2.3.4"]>
    (<["b.example.com" := mkResult "b.example.com" 200 "5.6.7.8"]> ∅).

Definition liveSubs : list Result :=
  [mkResult "b.example.com" 200 "5.6.7.8"; mkResult "a.example.com" 200 "1.2.3.4"].

(** A URL as [http.NewRequestWithContext] accepts it, for the sample
    networks: Go's URL parser refuses a space in a host name. *)
Definition hostOK (url : string) : bool :=
  bool_decide (" "%char ∉ list_ascii_of_string url).

(** Four networks: one where nothing resolves or answers; one where a
    host answers 200 over plain HTTP; one where the host answers with the
    status line [HTTP/1.1 000], which Go's client hands on as a response
    with [StatusCode] 0; and one where both schemes redirect in a loop, so
    that [client.Do] gives up with the last 302 response and an error. *)
Definition netDown : Net :=
  mkNet (λ _, ([], true)) hostOK (λ _, mkDo None true).

Definition netLive : Net :=
  mkNet (λ _, (["1.2.3.4"], false)) hostOK
        (λ _, mkDo (Some (mkResponse 200)) false).

Definition netZero : Net :=
  mkNet (λ _, (["1.2.3.4"], false)) hostOK
        (λ _, mkDo (Some (mkResponse 0)) false).

Definition netLoop : Net :=
  mkNet (λ _, (["1.2.3.4"], false)) hostOK
        (λ _, mkDo (Some (mkResponse 302)) true).

(** ** The producer *)

(** [for _, c := range candidates { jobs <- c }] *)
Fixpoint feed (cs : list string) (jobs : chan string) : exec (chan string) :=
  match cs with
  | [] => mret jobs
  | c :: cs' => jobs' ← send jobs c; feed cs' jobs'
  end.

(** The producer goroutine of [main]: it feeds the initial candidates and,
    when not deep, closes the queue. *)
Definition producer (deep : bool) (cs : list string) (jobs : chan string)
    : exec (chan string) :=
  jobs' ← feed cs jobs;
  if deep then mret jobs' else close jobs'.

(** Kinds of effect, for counting them in a log. *)
Definition isResolve (e : effect) : bool :=
  match e with Resolve _ => true | _ => false end.

Definition isGet (e : effect) : bool :=
  match e with Get _ => true | _ => false end.

Definition isPrinted (e : effect) : bool :=
  match e with Printed _ => true | _ => false end.

Fixpoint count (f : effect → bool) (effs : list effect) : nat :=
  match effs with
  | [] => 0
  | e :: effs' => (if f e then 1 else 0) + count f effs'
  end.

(** A result the expander passes over: recursion is off, or the host did
    not answer, or the name has fewer than three labels. *)
Definition inert (deep : bool) (r : Result) : Prop :=
  deep = false ∨ Status r = 0 ∨ (length (Split (Subdomain r) dot) < 3)%nat.

(** How often the coordinator closes the job queue during a run. *)
Definition closes (es : list event) : nat :=
  length (filter (λ e, e = CloseJobs) es).

(** The five keys of [counts]. *)
Definition countKeys : gset string :=
  {["live"; "404"; "301"; "other"; "unreachable"]}.

(** * Properties *)

(** ** Go primitives *)

Lemma exec_bind_ret {A} (m : exec A) : (m ≫= mret) = m.
Proof. by destruct m. Qed.

Lemma chan_eta {A} (c : chan A) : mkChan (buf c) (closed c) = c.
Proof. by destruct c. Qed.

Lemma send_open {A} (c : chan A) (x : A) :
  closed c = false → send c x = Done (mkChan (buf c ++ [x]) false).
Proof. intros Hc. unfold send. by rewrite Hc. Qed.

Lemma send_closed {A} (c : chan A) (x : A) :
  closed c = true → send c x = Panic "send on closed channel".
Proof. intros Hc. unfold send. by rewrite Hc. Qed.

Lemma Split_nonempty s sep : Split s sep ≠ [].
Proof.
  destruct s as [|a s]; [done|]. cbn [Split].
  destruct (Ascii.eqb a sep); [done|]. by destruct (Split s sep).
Qed.

Lemma Split_cons a s sep :
  length (Split (String a s) sep) =
  if Ascii.eqb a sep then S (length (Split s sep)) else length (Split s sep).
Proof.
  cbn [Split]. destruct (Ascii.eqb a sep); [done|].
  pose proof (Split_nonempty s sep) as Hne.
  by destruct (Split s sep).
Qed.

Lemma Split_length_pos s sep : (1 ≤ length (Split s sep))%nat.
Proof.
  pose proof (Split_nonempty s sep) as Hne.
  destruct (Split s sep); [done|cbn; lia].
Qed.

(** Concatenation adds up the fields, the field at the seam being shared. *)
Lemma Split_append a b sep :
  (length (Split (a +:+ b) sep) + 1 =
   length (Split a sep) + length (Split b sep))%nat.
Proof.
  induction a as [|c a IH].
  { change (EmptyString +:+ b) with b. cbn. lia. }
  change (String c a +:+ b) with (String c (a +:+ b)).
  rewrite !Split_cons. destruct (Ascii.eqb c sep); lia.
Qed.

Example Split_api : Split "api.example.com" dot = ["api"; "example"; "com"].
Proof. reflexivity. Qed.

Example Split_no_dot : Split "localhost" dot = ["localhost"].
Proof. reflexivity. Qed.

Example Split_empty_fields : Split "a..b." dot = ["a"; ""; "b"; ""].
Proof. reflexivity. Qed.

(** ** Recursion expander *)

Lemma enqueueAll_open found cs jobs :
  closed jobs = false →
  enqueueAll found cs jobs = Done (mkChan (buf jobs ++ absent found cs) false).
Proof.
  revert jobs. induction cs as [|c cs IH]; intros jobs Hopen.
  - cbn. rewrite app_nil_r, <- Hopen. by rewrite chan_eta.
  - cbn [enqueueAll]. unfold absent, enqueue. rewrite filter_cons.
    destruct (found !! c) as [r|] eqn:Hc.
    + rewrite decide_False by done. cbn. by rewrite IH.
    + rewrite decide_True by done. rewrite send_open by done. cbn.
      rewrite IH by done. cbn. by rewrite <- app_assoc.
Qed.

Lemma enqueueAll_present found cs jobs :
  absent found cs = [] → enqueueAll found cs jobs = Done jobs.
Proof.
  revert jobs. induction cs as [|c cs IH]; intros jobs; [done|].
  unfold absent. rewrite filter_cons. cbn [enqueueAll]. unfold enqueue.
  destruct (found !! c) as [r|] eqn:Hc.
  - rewrite decide_False by done. intros Hcs. cbn. by apply IH.
  - by rewrite decide_True by done.
Qed.

(** In deep mode a responding name of three labels or more is expanded: the
    three names built from its leftmost label are offered to the queue. *)
Lemma expand_deep domain r found jobs :
  Status r ≠ 0 → (3 ≤ length (Split (Subdomain r) dot))%nat →
  expand true domain r found jobs =
  enqueueAll found (permutations (firstLabel (Subdomain r)) domain) jobs.
Proof.
  intros Hs Hparts. unfold expand.
  apply Z.eqb_neq in Hs. rewrite Hs. cbn [negb andb].
  rewrite decide_True by done.
  unfold permutations, firstLabel. cbn [enqueueAll].
  destruct (enqueue found _ jobs) as [j1|]; [|done]. cbn.
  destruct (enqueue found _ j1) as [j2|]; [|done]. cbn.
  by rewrite exec_bind_ret.
Qed.

(** Anything else leaves the queue alone. *)
Lemma expand_skip deep domain r found jobs :
  deep = false ∨ Status r = 0 ∨ (length (Split (Subdomain r) dot) < 3)%nat →
  expand deep domain r found jobs = Done jobs.
Proof.
  intros H. unfold expand.
  destruct deep; [|done].
  destruct (Z.eqb_spec (Status r) 0) as [|Hs]; [done|]. cbn [negb andb].
  destruct H as [?|[?|?]]; [done..|].
  rewrite decide_False by lia. done.
Qed.

Lemma append_assoc (a b c : string) : (a +:+ b) +:+ c = a +:+ (b +:+ c).
Proof.
  induction a as [|x a IH]; [done|].
  change (String x ((a +:+ b) +:+ c) = String x (a +:+ (b +:+ c))).
  by rewrite IH.
Qed.

(** The three names, written out. *)
Lemma permutations_names sub domain :
  permutations sub domain =
  [sub +:+ "-stage." +:+ domain; sub +:+ "-dev." +:+ domain;
   "api." +:+ sub +:+ "." +:+ domain].
Proof. unfold permutations. by rewrite !append_assoc. Qed.

(** A dot-free word in front of a dot-free root makes a name of two labels. *)
Lemma candidate_two_labels w domain :
  length (Split w dot) = 1%nat → length (Split domain dot) = 1%nat →
  length (Split ((w +:+ ".") +:+ domain) dot) = 2%nat.
Proof.
  intros Hw Hd.
  pose proof (Split_append (w +:+ ".") domain dot) as H1.
  pose proof (Split_append w "." dot) as H2.
  change (length (Split "." dot)) with 2%nat in H2. lia.
Qed.

(** Every derived name has three labels or more once the root has two. *)
Lemma permutations_three_labels sub domain c :
  c ∈ permutations sub domain → (2 ≤ length (Split domain dot))%nat →
  (3 ≤ length (Split c dot))%nat.
Proof.
  intros Hc Hd. unfold permutations in Hc.
  pose proof (Split_length_pos sub dot) as Hsub.
  apply elem_of_cons in Hc as [->|Hc]; [|apply elem_of_cons in Hc as [->|Hc]].
  - pose proof (Split_append (sub +:+ "-stage.") domain dot) as H1.
    pose proof (Split_append sub "-stage." dot) as H2.
    change (length (Split "-stage." dot)) with 2%nat in H2. lia.
  - pose proof (Split_append (sub +:+ "-dev.") domain dot) as H1.
    pose proof (Split_append sub "-dev." dot) as H2.
    change (length (Split "-dev." dot)) with 2%nat in H2. lia.
  - apply list_elem_of_singleton in Hc as ->.
    pose proof (Split_append (("api." +:+ sub) +:+ ".") domain dot) as H1.
    pose proof (Split_append ("api." +:+ sub) "." dot) as H2.
    pose proof (Split_append "api." sub dot) as H3.
    change (length (Split "." dot)) with 2%nat in H2.
    change (length (Split "api." dot)) with 2%nat in H3. lia.
Qed.

(** C10. The expander derives candidates only from names of at least three
    dot-separated labels: for a result whose subdomain has fewer, the job
    queue is left exactly as it was, whatever the mode and the status. *)
Theorem expand_needs_three_labels deep domain r found jobs :
  (length (Split (Subdomain r) dot) < 3)%nat →
  expand deep domain r found jobs = Done jobs.
Proof.
  intros Hshort. unfold expand.
  destruct (deep && negb (Status r =? 0)); [|done].
  destruct (decide (3 ≤ length (Split (Subdomain r) dot))%nat) as [Hlong|_].
  - lia.
  - done.
Qed.

Lemma expand_needs_three_labels_witness :
  (length (Split "www.localhost" dot) < 3)%nat ∧
  expand true "localhost" (mkResult "www.localhost" 200 "127.0.0.1") ∅ make
  = Done make.
Proof.
  split; [cbn; lia|].
  apply (expand_needs_three_labels true "localhost"
           (mkResult "www.localhost" 200 "127.0.0.1") ∅ make).
  cbn. lia.
Defined.

(** C6, as the code has it. In deep mode, for a consumed result of
    non-zero status whose subdomain has at least three labels, leftmost
    label [L], and for root [R], the candidates derived are exactly
    [L-stage.R], [L-dev.R] and [api.L.R]; while the queue is open, those
    of them that the registry does not hold at that moment are enqueued,
    in this order, and nothing else is. *)
Theorem expand_enqueues_absent domain r found jobs :
  Status r ≠ 0 → (3 ≤ length (Split (Subdomain r) dot))%nat →
  closed jobs = false →
  let L := firstLabel (Subdomain r) in
  expand true domain r found jobs =
  Done (mkChan (buf jobs ++
                absent found [L +:+ "-stage." +:+ domain;
                              L +:+ "-dev." +:+ domain;
                              "api." +:+ L +:+ "." +:+ domain]) false).
Proof.
  intros Hs Hparts Hopen L.
  rewrite expand_deep by done. fold L.
  rewrite <- permutations_names.
  by apply enqueueAll_open.
Qed.

Lemma expand_enqueues_absent_witness :
  expand true "example.com" (mkResult "api.example.com" 200 "1.2.3.4")
    {[ "api-dev.example.com" := mkResult "api-dev.example.com" 0 "" ]} make
  = Done (mkChan ["api-stage.example.com"; "api.api.example.com"] false).
Proof.
  etrans.
  - apply (expand_enqueues_absent "example.com"
             (mkResult "api.example.com" 200 "1.2.3.4")
             {[ "api-dev.example.com" := mkResult "api-dev.example.com" 0 "" ]}
             make).
    + done.
    + cbn. lia.
    + done.
  - vm_compute. reflexivity.
Defined.

(** C6 as stated, without the three-label guard, fails: a responding
    [www.localhost] under the root [localhost] derives nothing, although
    none of the three names is in the registry. *)
Lemma expand_two_labels_counterexample :
  ¬ (∀ domain r found jobs,
       Status r ≠ 0 → closed jobs = false →
       let L := firstLabel (Subdomain r) in
       expand true domain r found jobs =
       Done (mkChan (buf jobs ++
                     absent found [L +:+ "-stage." +:+ domain;
                                   L +:+ "-dev." +:+ domain;
                                   "api." +:+ L +:+ "." +:+ domain]) false)).
Proof.
  intros claim.
  specialize (claim "localhost" (mkResult "www.localhost" 200 "127.0.0.1")
                ∅ make).
  cbv zeta in claim.
  rewrite expand_skip in claim by (right; right; cbn; lia).
  vm_compute in claim. discriminate claim; done.
Qed.

(** C2, as the code has it. The rule carries no depth: a result for a name
    the expander itself produced is expanded like any other. Under a root
    of two labels or more, every derived candidate that answers with a
    non-zero status has the three names built from its own leftmost label
    offered to the queue, and the absent ones are enqueued while the queue
    is open. *)
Theorem derived_candidates_expand_again sub domain c status ip found jobs :
  c ∈ permutations sub domain → (2 ≤ length (Split domain dot))%nat →
  status ≠ 0 → closed jobs = false →
  expand true domain (mkResult c status ip) found jobs =
  Done (mkChan (buf jobs ++
                absent found (permutations (firstLabel c) domain)) false).
Proof.
  intros Hc Hroot Hs Hopen.
  assert (3 ≤ length (Split c dot))%nat as Hparts
    by eauto using permutations_three_labels.
  rewrite expand_deep by done. cbn [Subdomain].
  by apply enqueueAll_open.
Qed.

Lemma derived_candidates_expand_again_witness :
  expand true "example.com" (mkResult "www-stage.example.com" 200 "") ∅ make
  = Done (mkChan ["www-stage-stage.example.com"; "www-stage-dev.example.com";
                  "api.www-stage.example.com"] false).
Proof.
  etrans.
  - apply (derived_candidates_expand_again "www" "example.com"
             "www-stage.example.com" 200 "" ∅ make).
    + vm_compute. left.
    + cbn. lia.
    + done.
    + done.
  - vm_compute. reflexivity.
Defined.

(** C2 as stated fails: [www-stage.example.com] is a candidate the
    expander derives from [www.example.com], and when it answers 200 three
    further candidates are enqueued from it. *)
Lemma depth_one_counterexample :
  ¬ (∀ sub domain c status ip found jobs,
       c ∈ permutations sub domain → status ≠ 0 →
       expand true domain (mkResult c status ip) found jobs = Done jobs).
Proof.
  intros claim.
  specialize (claim "www" "example.com" "www-stage.example.com" 200 "" ∅ make).
  assert ("www-stage.example.com" ∈ permutations "www" "example.com") as Hin
    by (vm_compute; left).
  specialize (claim Hin).
  assert (200 ≠ 0) as Hs by done.
  specialize (claim Hs).
  vm_compute in claim. discriminate claim.
Qed.

(** C1, on the code. Once the job queue is closed, the expander's next
    send panics: for a responding name of three labels with at least one
    derived name missing from the registry, the recursion step does not
    return, it panics with Go's [send on closed channel]. *)
Theorem expand_on_closed_queue_panics domain r found jobs :
  closed jobs = true → Status r ≠ 0 →
  (3 ≤ length (Split (Subdomain r) dot))%nat →
  absent found (permutations (firstLabel (Subdomain r)) domain) ≠ [] →
  expand true domain r found jobs = Panic "send on closed channel".
Proof.
  intros Hclosed Hs Hparts Hnew.
  rewrite expand_deep by done.
  revert Hnew. generalize (permutations (firstLabel (Subdomain r)) domain).
  intros cs. induction cs as [|c cs IH]; [done|].
  unfold absent. rewrite filter_cons. cbn [enqueueAll]. unfold enqueue.
  destruct (found !! c) as [r'|] eqn:Hc.
  - rewrite decide_False by done. intros Hcs. cbn. by apply IH.
  - intros _. by rewrite send_closed.
Qed.

Lemma expand_on_closed_queue_panics_witness :
  expand true "example.com" (mkResult "mail.example.com" 200 "1.2.3.4")
    {[ "mail.example.com" := mkResult "mail.example.com" 200 "1.2.3.4" ]}
    (mkChan [] true)
  = Panic "send on closed channel".
Proof.
  apply (expand_on_closed_queue_panics "example.com"
           (mkResult "mail.example.com" 200 "1.2.3.4")
           {[ "mail.example.com" := mkResult "mail.example.com" 200 "1.2.3.4" ]}
           (mkChan [] true)).
  - done.
  - done.
  - cbn. lia.
  - vm_compute. discriminate.
Defined.

(** The step returns on a closed queue only when there is nothing to send:
    all three names are already in the registry. *)
Lemma expand_closed_nothing_to_send domain r found jobs :
  Status r ≠ 0 → (3 ≤ length (Split (Subdomain r) dot))%nat →
  absent found (permutations (firstLabel (Subdomain r)) domain) = [] →
  expand true domain r found jobs = Done jobs.
Proof.
  intros Hs Hparts Hnone. rewrite expand_deep by done.
  by apply enqueueAll_present.
Qed.

(** The same on a whole run of the collector in deep mode: the queue is
    seeded and drained, the coordinator closes it, and a late result for
    [mail.example.com] reaches the collector. *)
Example late_result_crashes_collector :
  run true "example.com"
    [Take; Consume (mkResult "www.example.com" 0 ""); Take; CloseJobs;
     Consume (mkResult "mail.example.com" 200 "1.2.3.4")]
    (start ["www.example.com"; "mail.example.com"])
  = Panic "send on closed channel".
Proof. vm_compute. reflexivity. Qed.

(** ** Dedup registry *)

Lemma record_lookup r found k :
  record r found !! k =
  match found !! k with
  | Some r' => Some r'
  | None => if decide (Subdomain r = k) then Some r else None
  end.
Proof.
  unfold record. destruct (found !! Subdomain r) as [r0|] eqn:Hr.
  - destruct (found !! k) eqn:Hk; [done|].
    rewrite decide_False; [done|]. intros <-. congruence.
  - rewrite lookup_insert. destruct (decide (Subdomain r = k)) as [<-|Hne].
    + by rewrite Hr.
    + by destruct (found !! k).
Qed.

(** An insert attempt for a key already present changes nothing. *)
Lemma record_present r found :
  is_Some (found !! Subdomain r) → record r found = found.
Proof. intros [r' Hr]. unfold record. by rewrite Hr. Qed.

(** The collector touches the registry through [record] only. *)
Lemma step_found deep domain e p p' :
  step deep domain e p = Done p' →
  found p' = match e with Consume r => record r (found p) | _ => found p end.
Proof.
  destruct e as [r| |]; cbn.
  - unfold collect. destruct (expand _ _ _ _ _); cbn; [|done].
    by intros [= <-].
  - destruct (close _); cbn; [|done]. by intros [= <-].
  - destruct (recv _); intros [= <-]; done.
Qed.

Lemma run_found deep domain es p p' :
  run deep domain es p = Done p' →
  found p' = foldl (λ f r, record r f) (found p) (consumedResults es).
Proof.
  revert p. induction es as [|e es IH]; intros p; cbn [run].
  - by intros [= <-].
  - destruct (step deep domain e p) as [p1|] eqn:Hstep; cbn; [|done].
    intros Hrun. rewrite (IH _ Hrun).
    apply step_found in Hstep. rewrite Hstep.
    by destruct e.
Qed.

Lemma foldl_record_lookup rs f k :
  foldl (λ f r, record r f) f rs !! k =
  match f !! k with
  | Some r => Some r
  | None => firstFor k rs
  end.
Proof.
  revert f. induction rs as [|r rs IH]; intros f; cbn [foldl].
  - by destruct (f !! k).
  - rewrite IH, record_lookup. unfold firstFor. rewrite filter_cons.
    destruct (f !! k); [done|]. by destruct (decide (Subdomain r = k)).
Qed.

Lemma firstFor_consumed k rs :
  k ∈ Subdomain <$> rs → ∃ r, firstFor k rs = Some r ∧ Subdomain r = k.
Proof.
  unfold firstFor. induction rs as [|r rs IH]; cbn [fmap list_fmap].
  - by intros ?%elem_of_nil.
  - rewrite filter_cons. destruct (decide (Subdomain r = k)) as [Heq|Hne].
    + intros _. by exists r.
    + intros [?|?]%elem_of_cons; [congruence|auto].
Qed.

(** A map holds at most one entry per key. *)
Lemma entries_for_key (m : gmap string Result) k :
  length (filter (λ kv : string * Result, kv.1 = k) (map_to_list m)) =
  match m !! k with Some _ => 1%nat | None => 0%nat end.
Proof.
  induction m as [|i x m Hi IH] using map_ind.
  - by rewrite map_to_list_empty.
  - rewrite map_to_list_insert by done. rewrite filter_cons. cbn [fst].
    rewrite lookup_insert.
    destruct (decide (i = k)) as [->|Hne].
    + cbn [length]. rewrite IH, Hi. done.
    + by rewrite IH.
Qed.

(** A shallow run never writes to the queue, so it returns as long as the
    queue is closed at most once; the registry of C3 is then there to be
    read. *)
Lemma run_shallow_done domain es p :
  (length (filter (λ e, e = CloseJobs) es)
   ≤ if closed (jobs p) then 0 else 1)%nat →
  ∃ p', run false domain es p = Done p'.
Proof.
  revert p. induction es as [|e es IH]; intros p Hclose; [by eexists|].
  rewrite filter_cons in Hclose. cbn [run].
  destruct e as [r| |]; cbn [step].
  - rewrite decide_False in Hclose by done.
    unfold collect. rewrite expand_skip by auto. cbn. by apply IH.
  - rewrite decide_True in Hclose by done. cbn [length] in Hclose.
    unfold close. destruct (closed (jobs p)) eqn:Hc; [lia|]. cbn.
    apply IH. cbn. lia.
  - rewrite decide_False in Hclose by done.
    unfold recv. destruct (buf (jobs p)) as [|c rest] eqn:Hbuf.
    + destruct (closed (jobs p)) eqn:Hc; cbn; apply IH; by rewrite Hc.
    + cbn. by apply IH.
Qed.

(** C3. After the collector has gone through the results of a run, the
    registry holds, for every subdomain that was reported at least once,
    exactly one entry, and its value is the first result consumed for that
    key; a further insert attempt for the key leaves the registry as it is. *)
Theorem registry_first_writer_wins deep domain seeded es p k :
  run deep domain es (start seeded) = Done p →
  k ∈ Subdomain <$> consumedResults es →
  ∃ r, firstFor k (consumedResults es) = Some r
     ∧ found p !! k = Some r
     ∧ length (filter (λ kv : string * Result, kv.1 = k)
                 (map_to_list (found p))) = 1%nat
     ∧ ∀ r', Subdomain r' = k → record r' (found p) = found p.
Proof.
  intros Hrun Hk.
  destruct (firstFor_consumed _ _ Hk) as (r & Hfirst & Hkey).
  assert (found p !! k = Some r) as Hp.
  { rewrite (run_found _ _ _ _ _ Hrun), foldl_record_lookup.
    cbn [start found]. by rewrite lookup_empty. }
  exists r. split_and!; [done..| |].
  - by rewrite entries_for_key, Hp.
  - intros r' <-. apply record_present. by rewrite Hp.
Qed.

Lemma registry_first_writer_wins_witness :
  ∃ r, firstFor "www.example.com" (consumedResults sampleEvents) = Some r
     ∧ found sampleFinal !! "www.example.com" = Some r
     ∧ length (filter (λ kv : string * Result, kv.1 = "www.example.com")
                 (map_to_list (found sampleFinal))) = 1%nat
     ∧ ∀ r', Subdomain r' = "www.example.com" →
         record r' (found sampleFinal) = found sampleFinal.
Proof.
  apply (registry_first_writer_wins false "example.com"
           ["www.example.com"; "mail.example.com"; "www.example.com"]
           sampleEvents sampleFinal "www.example.com").
  - vm_compute. reflexivity.
  - vm_compute. left.
Defined.

(** ** Prober and worker *)

Lemma statusOf_responds d : is_Some (statusOf d) ↔ responds d.
Proof.
  unfold statusOf, responds, is_Some.
  destruct (resp d) as [rsp|], (err d); split.
  all: try (intros [code H]; discriminate H).
  all: try (intros [_ H]; discriminate H).
  all: try (intros [[rsp' H] _]; discriminate H).
  - intros _. split; [by exists rsp|done].
  - intros _. by eexists.
Qed.

Lemma statusOf_None d : statusOf d = None ↔ ¬ responds d.
Proof.
  rewrite <- statusOf_responds, <- eq_None_not_Some. done.
Qed.

Lemma clientDo_built net url :
  NewRequest net url = true → clientDo net url = Done (Do net url).
Proof. intros H. unfold clientDo. by rewrite H. Qed.

Lemma clientDo_nil net url :
  NewRequest net url = false →
  clientDo net url = Panic "invalid memory address or nil pointer dereference".
Proof. intros H. unfold clientDo. by rewrite H. Qed.

Lemma responds_inv d :
  responds d ↔ ∃ rsp, resp d = Some rsp ∧ err d = false.
Proof.
  unfold responds, is_Some. split.
  - intros [[rsp H] He]. by exists rsp.
  - intros (rsp & H & He). split; [by exists rsp|done].
Qed.

(** A probe whose requests can be built returns what the contract says. *)
Lemma probe_builds net verbose sub :
  builds net sub → probe net verbose sub = Done (probed net verbose sub).
Proof.
  intros [Hhttp Hhttps]. unfold probe, probed, statusOf.
  rewrite (surjective_pairing (LookupHost net sub)).
  rewrite (clientDo_built net ("http://" +:+ sub)) by done. cbn.
  destruct (decide (responds (Do net ("http://" +:+ sub)))) as [Hr|Hr].
  - apply responds_inv in Hr as (rsp & Hrsp & Herr).
    rewrite Hrsp, Herr. by cbn.
  - specialize (Hhttps Hr). rewrite responds_inv in Hr.
    destruct (resp (Do net ("http://" +:+ sub))) as [rsp|] eqn:Hrsp;
      [destruct (err (Do net ("http://" +:+ sub))) eqn:Herr;
       [|destruct Hr; by exists rsp]|].
    all: rewrite (clientDo_built net ("https://" +:+ sub)) by done; cbn.
    all: destruct (resp (Do net ("https://" +:+ sub))) as [rsp2|],
               (err (Do net ("https://" +:+ sub))); done.
Qed.

(** A probe that needs a request that cannot be built panics. *)
Lemma probe_nil_request net verbose sub :
  ¬ builds net sub →
  probe net verbose sub
  = Panic "invalid memory address or nil pointer dereference".
Proof.
  intros Hno. unfold probe.
  rewrite (surjective_pairing (LookupHost net sub)).
  destruct (NewRequest net ("http://" +:+ sub)) eqn:Hhttp.
  - rewrite (clientDo_built net ("http://" +:+ sub)) by done. cbn.
    destruct (decide (responds (Do net ("http://" +:+ sub)))) as [Hr|Hr].
    { destruct Hno. by split. }
    destruct (NewRequest net ("https://" +:+ sub)) eqn:Hhttps.
    { destruct Hno. by split. }
    rewrite responds_inv in Hr.
    destruct (resp (Do net ("http://" +:+ sub))) as [rsp|] eqn:Hrsp;
      [destruct (err (Do net ("http://" +:+ sub))) eqn:Herr;
       [|destruct Hr; by exists rsp]|].
    all: by rewrite (clientDo_nil net ("https://" +:+ sub)).
  - by rewrite (clientDo_nil net ("http://" +:+ sub)).
Qed.

Lemma probed_subdomain net verbose sub :
  Subdomain (probed net verbose sub).1 = sub.
Proof. done. Qed.

(** C7, as the code has it. For a candidate whose requests can be built, a
    probe looks the name up (a failed lookup only leaves the address
    empty), calls [client.Do] once over HTTP and, only when that call does
    not return a response without error, once over HTTPS, and nothing more.
    The status is the HTTP response's code if there is one, otherwise the
    HTTPS response's code if there is one, otherwise 0: it is 0 whenever
    neither call returns a response without error, and a status of 0 means
    that neither did or that the response taken itself carries code 0. *)
Theorem probe_contract net verbose sub :
  builds net sub →
  let http := Do net ("http://" +:+ sub) in
  let https := Do net ("https://" +:+ sub) in
  ∃ r prints,
    probe net verbose sub =
      Done (r, [Resolve sub; Get ("http://" +:+ sub)]
               ++ (if decide (responds http) then []
                   else [Get ("https://" +:+ sub)])
               ++ prints)
    ∧ Forall (λ e, ∃ text, e = Printed text) prints
    ∧ Subdomain r = sub
    ∧ IP r = match (LookupHost net sub).1 with a :: _ => a | [] => "" end
    ∧ Status r = match statusOf http with
                 | Some code => code
                 | None => default 0 (statusOf https)
                 end
    ∧ (¬ responds http ∧ ¬ responds https → Status r = 0)
    ∧ (Status r = 0 →
       (¬ responds http ∧ ¬ responds https)
       ∨ statusOf http = Some 0
       ∨ (¬ responds http ∧ statusOf https = Some 0)).
Proof.
  intros Hbuilds http https.
  rewrite probe_builds by done. unfold probed. fold http https.
  set (status := match statusOf http with
                 | Some code => code
                 | None => default 0 (statusOf https)
                 end).
  eexists _, _. split; [reflexivity|]. cbn [Subdomain IP Status].
  split_and!; try done.
  - destruct verbose; repeat constructor. by eexists.
  - intros [H1%statusOf_None H2%statusOf_None]. subst status.
    by rewrite H1, H2.
  - subst status. intros H0.
    destruct (statusOf http) as [c|] eqn:E1.
    { right; left. by rewrite H0. }
    apply statusOf_None in E1.
    destruct (statusOf https) as [c|] eqn:E2; cbn in H0.
    { right; right. by rewrite H0. }
    apply statusOf_None in E2. by left.
Qed.

(** C7 as stated fails in the direction from status 0 to silence, whatever
    one takes a response to be. If it is a response returned without
    error, a server that answers the HTTP request with status code 0 yields
    one, and the result still carries status 0. If it is any response the
    server sent, a redirect loop yields 302 responses on both schemes, and
    the result carries status 0 because [client.Do] reports an error. *)
Lemma status_zero_counterexample :
  ¬ (∀ net verbose sub r effs,
       probe net verbose sub = Done (r, effs) →
       (Status r = 0 ↔
        ¬ responds (Do net ("http://" +:+ sub))
        ∧ ¬ responds (Do net ("https://" +:+ sub))))
  ∧ ¬ (∀ net verbose sub r effs,
         probe net verbose sub = Done (r, effs) →
         (Status r = 0 ↔
          resp (Do net ("http://" +:+ sub)) = None
          ∧ resp (Do net ("https://" +:+ sub)) = None)).
Proof.
  split; intros claim.
  - destruct (claim netZero false "www.example.com"
                (mkResult "www.example.com" 0 "1.2.3.4")
                [Resolve "www.example.com"; Get "http://www.example.com"])
      as [Hsilent _]; [by vm_compute|].
    destruct Hsilent as [Hhttp _]; [reflexivity|].
    apply Hhttp. split; [by eexists|done].
  - destruct (claim netLoop false "www.example.com"
                (mkResult "www.example.com" 0 "1.2.3.4")
                [Resolve "www.example.com"; Get "http://www.example.com";
                 Get "https://www.example.com"])
      as [Hsilent _]; [by vm_compute|].
    destruct Hsilent as [Hhttp _]; [reflexivity|]. discriminate Hhttp.
Qed.

Lemma builds_down : builds netDown "mail.example.com".
Proof. split; [by vm_compute|intros _; by vm_compute]. Qed.

Lemma probe_contract_witness :
  ∃ r effs,
    probe netDown true "mail.example.com" = Done (r, effs) ∧ Status r = 0.
Proof.
  destruct (probe_contract netDown true "mail.example.com" builds_down)
    as (r & prints & Hprobe & _ & _ & _ & _ & Hsilent & _).
  exists r. eexists. split; [exact Hprobe|].
  apply Hsilent. split; intros [[rsp Hrsp] _]; discriminate Hrsp.
Defined.

Example probe_unreachable :
  probe netDown false "mail.example.com" =
  Done (mkResult "mail.example.com" 0 "",
        [Resolve "mail.example.com"; Get "http://mail.example.com";
         Get "https://mail.example.com"]).
Proof. by vm_compute. Qed.

Example probe_live :
  probe netLive true "www.example.com" =
  Done (mkResult "www.example.com" 200 "1.2.3.4",
        [Resolve "www.example.com"; Get "http://www.example.com";
         Printed ("[+] checked www.example.com -> 200 1.2.3.4" +:+ newline)]).
Proof. by vm_compute. Qed.

Example probe_redirect_loop :
  probe netLoop false "www.example.com" =
  Done (mkResult "www.example.com" 0 "1.2.3.4",
        [Resolve "www.example.com"; Get "http://www.example.com";
         Get "https://www.example.com"]).
Proof. by vm_compute. Qed.

(** A worker that returns, or waits, without taking a candidate leaves
    the result stream as it is. *)
Lemma worker_idle verbose sel w :
  consumed sel = [] → worker verbose sel w = Done w.
Proof. destruct sel as [|[| |sub net] sel]; [done..|discriminate]. Qed.

(** A worker's run on an open result stream, over candidates whose
    requests can be built, publishes the results of its probes, in order,
    and logs their effects. *)
Lemma worker_run verbose sel w :
  closed (results w) = false → buildable sel →
  worker verbose sel w =
  Done (mkW (mkChan (buf (results w) ++ (probes verbose sel).*1) false)
            (log w ++ mjoin ((probes verbose sel).*2))).
Proof.
  revert w. induction sel as [|s sel IH]; intros w Hopen Hb.
  - cbn. rewrite !app_nil_r, <- Hopen, chan_eta. by destruct w.
  - destruct s as [| |sub net].
    1-2: cbn; rewrite !app_nil_r, <- Hopen, chan_eta; by destruct w.
    destruct Hb as [Hsub Hb]. cbn [worker probes].
    rewrite probe_builds by done.
    destruct (probed net verbose sub) as [r effs]. cbn.
    rewrite send_open by done. cbn.
    rewrite IH by done. cbn. by rewrite <- !app_assoc.
Qed.

(** A run that returns met no request it could not build. *)
Lemma worker_Done_buildable verbose sel w w' :
  worker verbose sel w = Done w' → buildable sel.
Proof.
  revert w. induction sel as [|[| |sub net] sel IH]; intros w; [done..|].
  cbn [worker buildable].
  destruct (decide (builds net sub)) as [Hb|Hb].
  - rewrite probe_builds by done.
    destruct (probed net verbose sub) as [r effs]. cbn.
    destruct (send (results w) r) as [res|]; cbn; [|done].
    intros Hrun. split; [done|]. by apply (IH _ Hrun).
  - by rewrite probe_nil_request.
Qed.

Lemma probes_subdomains verbose sel :
  Subdomain <$> (probes verbose sel).*1 = consumed sel.
Proof.
  induction sel as [|[| |sub net] sel IH]; [done..|].
  cbn. by rewrite IH.
Qed.

(** The invariant of the specification, where the code keeps it: over
    candidates whose requests can be built, a worker publishes exactly one
    result for each candidate it takes, in the order taken. *)
Lemma worker_publishes_each verbose sel w :
  closed (results w) = false → buildable sel →
  ∃ w' published,
    worker verbose sel w = Done w'
    ∧ results w' = mkChan (buf (results w) ++ published) false
    ∧ Subdomain <$> published = consumed sel
    ∧ length published = length (consumed sel).
Proof.
  intros Hopen Hb. rewrite worker_run by done.
  eexists _, ((probes verbose sel).*1). split_and!.
  - done.
  - done.
  - apply probes_subdomains.
  - rewrite <- (probes_subdomains verbose sel). by rewrite !length_fmap.
Qed.

(** C8, on the code. A candidate for which [http.NewRequestWithContext]
    returns no request (its URL does not parse) is taken off the queue and
    never answered: the worker calls [client.Do] on the nil request and
    panics, so it publishes no result for the candidate and the program
    dies. *)
Theorem worker_nil_request_panics verbose sub net sel w :
  NewRequest net ("http://" +:+ sub) = false →
  consumed (Job sub net :: sel) = sub :: consumed sel
  ∧ worker verbose (Job sub net :: sel) w
    = Panic "invalid memory address or nil pointer dereference".
Proof.
  intros Hnil. split; [done|].
  cbn [worker]. rewrite probe_nil_request; [done|].
  intros [Hhttp _]. congruence.
Qed.

Lemma worker_nil_request_panics_witness :
  consumed [Job "foo bar.example.com" netLive; Job "www.example.com" netLive]
  = ["foo bar.example.com"; "www.example.com"]
  ∧ worker false
      [Job "foo bar.example.com" netLive; Job "www.example.com" netLive]
      (mkW make [])
    = Panic "invalid memory address or nil pointer dereference".
Proof.
  apply (worker_nil_request_panics false "foo bar.example.com" netLive
           [Job "www.example.com" netLive] (mkW make [])).
  by vm_compute.
Defined.

(** The candidate of that run is one the program makes itself from a word
    list line with a space inside, which [TrimSpace] and [uniqStrings]
    leave alone. *)
Example seed_with_space :
  seed id "words.txt" "example.com" 2
    (λ _, Opened (mkScanned ["foo bar"] false)) CharDevice
  = Continue ["foo bar.example.com"].
Proof. by vm_compute. Qed.

Example worker_publishes :
  results <$> (worker false
                 [Job "www.example.com" netLive; Job "mail.example.com" netDown;
                  JobsClosed; Job "ftp.example.com" netLive]
                 (mkW make []))
  = Done (mkChan [mkResult "www.example.com" 200 "1.2.3.4";
                  mkResult "mail.example.com" 0 ""] false).
Proof. by vm_compute. Qed.

(** ** Candidate source *)

(** The loop of [uniqStrings], from any state in which [m] holds exactly
    the strings of [out]. *)
Lemma uniq_fold input (m : gset string) (out : list string) :
  (∀ s, s ∈ m ↔ s ∈ out) → NoDup out → "" ∉ out →
  ∃ ext,
    (foldl uniqStep (m, out) input).2 = out ++ ext
    ∧ ext `sublist_of` input
    ∧ NoDup (out ++ ext)
    ∧ ("" ∉ out ++ ext)
    ∧ ∀ s, s ∈ ext ↔ s ∈ input ∧ s ≠ "" ∧ s ∉ out.
Proof.
  revert m out. induction input as [|x input IH]; intros m out Hm Hnd Hne.
  - exists []. rewrite app_nil_r. split_and!; try done.
    intros s. split; [by intros ?%elem_of_nil|by intros [?%elem_of_nil _]].
  - cbn [foldl]. unfold uniqStep at 2.
    destruct (decide (x = "")) as [->|Hx];
      [|destruct (decide (x ∈ m)) as [Hin|Hnin]].
    + destruct (IH m out Hm Hnd Hne) as (ext & Heq & Hsub & Hnd' & Hne' & Hmem).
      exists ext. split_and!; try done.
      * by apply sublist_cons.
      * intros s. rewrite Hmem, elem_of_cons.
        split; [tauto|]. intros [[->|?] [? ?]]; [done|tauto].
    + destruct (IH m out Hm Hnd Hne) as (ext & Heq & Hsub & Hnd' & Hne' & Hmem).
      exists ext. split_and!; try done.
      * by apply sublist_cons.
      * intros s. rewrite Hmem, elem_of_cons. apply Hm in Hin.
        split; [tauto|]. intros [[->|?] [? ?]]; [done|tauto].
    + assert (x ∉ out) as Hxout by (by rewrite <- Hm).
      destruct (IH ({[x]} ∪ m) (out ++ [x])) as (ext & Heq & Hsub & Hnd' & Hne' & Hmem).
      * intros s. rewrite elem_of_union, elem_of_singleton, elem_of_app,
          list_elem_of_singleton, Hm. tauto.
      * apply NoDup_app. split_and!; [done| |apply NoDup_singleton].
        intros s Hs ->%list_elem_of_singleton. done.
      * rewrite elem_of_app, list_elem_of_singleton.
        intros [?|?]; [done|congruence].
      * exists (x :: ext). rewrite <- app_assoc in Heq, Hnd', Hne'.
        split_and!; try done.
        -- by apply sublist_skip.
        -- intros s. rewrite !elem_of_cons, Hmem, elem_of_app,
             list_elem_of_singleton.
           destruct (decide (s = x)) as [->|?]; [|tauto].
           split; [intros _|by left]. split_and!; [by left|done..].
Qed.

(** [uniqStrings] keeps the first occurrence of every non-empty string. *)
Lemma uniqStrings_spec words :
  NoDup (uniqStrings words)
  ∧ ("" ∉ uniqStrings words)
  ∧ (∀ s, s ∈ uniqStrings words ↔ s ∈ words ∧ s ≠ "")
  ∧ uniqStrings words `sublist_of` words.
Proof.
  destruct (uniq_fold words ∅ []) as (ext & Heq & Hsub & Hnd & Hne & Hmem).
  - intros s. rewrite elem_of_empty, elem_of_nil. tauto.
  - constructor.
  - by intros ?%elem_of_nil.
  - unfold uniqStrings. rewrite Heq. cbn [app]. cbn [app] in Hnd, Hne.
    split_and!; try done.
    intros s. rewrite Hmem. rewrite elem_of_nil. tauto.
Qed.

(** With a path given, the branch of [chooseWords] is decided by what the
    file system returns for it. *)
Local Ltac by_file Hfs :=
  unfold chooseWords; rewrite decide_True by done; by rewrite Hfs.

(** The selection itself, branch by branch. *)
Lemma chooseWords_priority TrimSpace path t fs i :
  (path ≠ "" → fs path = OpenErr →
     chooseWords TrimSpace path t fs i = Exit 1)
  ∧ (∀ ls, path ≠ "" → fs path = Opened (mkScanned ls true) →
     chooseWords TrimSpace path t fs i = Exit 1)
  ∧ (∀ ls, path ≠ "" → fs path = Opened (mkScanned ls false) →
     chooseWords TrimSpace path t fs i = Continue (scanWords TrimSpace ls))
  ∧ (∀ sc, path = "" → i = Piped sc → scanWords TrimSpace (lines sc) ≠ [] →
     chooseWords TrimSpace path t fs i
     = Continue (scanWords TrimSpace (lines sc)))
  ∧ (path = "" → (∀ sc, i = Piped sc → scanWords TrimSpace (lines sc) = []) →
     chooseWords TrimSpace path t fs i = Continue (tierWords t)).
Proof.
  split_and!.
  - intros Hp Hfs. by_file Hfs.
  - intros ls Hp Hfs. by_file Hfs.
  - intros ls Hp Hfs. by_file Hfs.
  - intros sc -> -> Hne. unfold chooseWords. rewrite decide_False by auto.
    cbn [loadWordlistFromStdin]. rewrite decide_True; [done|].
    destruct (scanWords TrimSpace (lines sc)); [done|cbn; lia].
  - intros -> Hnone. unfold chooseWords. rewrite decide_False by auto.
    destruct i as [| |sc]; cbn [loadWordlistFromStdin].
    + rewrite decide_False; [done|cbn; lia].
    + rewrite decide_False; [done|cbn; lia].
    + rewrite (Hnone sc eq_refl). rewrite decide_False; [done|cbn; lia].
Qed.

(** C9, as the code has it. The fragments of a run are chosen by strict
    priority and then cleaned. With a [-w] path, the file decides alone: a
    file that cannot be opened or read ends the run with exit code 1, a
    readable one supplies the words. Without a path, piped input supplies
    them if it holds at least one non-blank line; a pipe of blank lines
    counts as no input. Failing both, the defaults of the tier do: the
    sixteen base words, with sixteen more at tier 1 and four more at tier
    2. In every case the fragments are the chosen words passed through
    [uniqStrings], which removes the empty strings and the repetitions and
    keeps the first occurrences in order. *)
Theorem word_source_priority TrimSpace path t fs i words :
  (path ≠ "" → fs path = OpenErr →
     fragments TrimSpace path t fs i = Exit 1)
  ∧ (∀ ls, path ≠ "" → fs path = Opened (mkScanned ls true) →
     fragments TrimSpace path t fs i = Exit 1)
  ∧ (∀ ls, path ≠ "" → fs path = Opened (mkScanned ls false) →
     fragments TrimSpace path t fs i
     = Continue (uniqStrings (scanWords TrimSpace ls)))
  ∧ (∀ sc, path = "" → i = Piped sc → scanWords TrimSpace (lines sc) ≠ [] →
     fragments TrimSpace path t fs i
     = Continue (uniqStrings (scanWords TrimSpace (lines sc))))
  ∧ (path = "" → (∀ sc, i = Piped sc → scanWords TrimSpace (lines sc) = []) →
     fragments TrimSpace path t fs i
     = Continue
         (["www"; "mail"; "ftp"; "api"; "dev"; "test"; "stage"; "admin";
           "portal"; "beta"; "shop"; "cdn"; "m"; "mobile"; "secure";
           "webmail"]
          ++ if decide (t = 1)
             then ["app"; "gateway"; "auth"; "accounts"; "login"; "payments";
                   "images"; "static"; "docs"; "status"; "internal"; "ops";
                   "graphql"; "socket"; "router"; "db"]
             else if decide (t = 2)
                  then ["app"; "auth"; "login"; "static"]
                  else []))
  ∧ NoDup (uniqStrings words)
  ∧ ("" ∉ uniqStrings words)
  ∧ (∀ s, s ∈ uniqStrings words ↔ s ∈ words ∧ s ≠ "")
  ∧ uniqStrings words `sublist_of` words.
Proof.
  destruct (chooseWords_priority TrimSpace path t fs i)
    as (Hopen & Hread & Hfile & Hpiped & Htier).
  unfold fragments. split_and!.
  - intros Hp Hfs. by rewrite Hopen.
  - intros ls Hp Hfs. by rewrite (Hread ls).
  - intros ls Hp Hfs. by rewrite (Hfile ls).
  - intros sc Hp Hi Hne. by rewrite (Hpiped sc).
  - intros Hp Hnone. rewrite Htier by done. f_equal. unfold tierWords.
    destruct (decide (t = 1)) as [->|H1]; [by vm_compute|].
    destruct (decide (t = 2)) as [->|H2]; [by vm_compute|].
    rewrite (proj2 (Z.eqb_neq t 1)), (proj2 (Z.eqb_neq t 2)) by done.
    destruct (t =? 3); by vm_compute.
  - apply uniqStrings_spec.
  - apply uniqStrings_spec.
  - apply uniqStrings_spec.
  - apply uniqStrings_spec.
Qed.

Lemma word_source_priority_witness :
  fragments id "words.txt" 1
    (λ _, Opened (mkScanned ["www"; ""; "api"; "www"] false))
    (Piped (mkScanned ["mail"] false))
  = Continue (uniqStrings (scanWords id ["www"; ""; "api"; "www"]))
  ∧ fragments id "" 3 (λ _, OpenErr) (Piped (mkScanned ["mail"; ""] false))
    = Continue (uniqStrings (scanWords id ["mail"; ""]))
  ∧ fragments id "" 2 (λ _, OpenErr) CharDevice
    = Continue
        (["www"; "mail"; "ftp"; "api"; "dev"; "test"; "stage"; "admin";
          "portal"; "beta"; "shop"; "cdn"; "m"; "mobile"; "secure";
          "webmail"]
         ++ ["app"; "auth"; "login"; "static"])
  ∧ NoDup (uniqStrings ["www"; ""; "api"; "www"]).
Proof.
  split_and!.
  - destruct (word_source_priority id "words.txt" 1
                (λ _, Opened (mkScanned ["www"; ""; "api"; "www"] false))
                (Piped (mkScanned ["mail"] false)) [])
      as (_ & _ & Hfile & _).
    by apply (Hfile ["www"; ""; "api"; "www"]).
  - destruct (word_source_priority id "" 3 (λ _, OpenErr)
                (Piped (mkScanned ["mail"; ""] false)) [])
      as (_ & _ & _ & Hpiped & _).
    by apply (Hpiped (mkScanned ["mail"; ""] false)).
  - destruct (word_source_priority id "" 2 (λ _, OpenErr) CharDevice [])
      as (_ & _ & _ & _ & Htier & _).
    apply Htier; [done|]. intros sc Hsc. discriminate Hsc.
  - destruct (word_source_priority id "" 3 (λ _, OpenErr) CharDevice
                ["www"; ""; "api"; "www"])
      as (_ & _ & _ & _ & _ & Hnd & _).
    exact Hnd.
Defined.

(** C9 as stated fails for piped data that is not empty but holds no
    word: standard input made of one blank line is data, and its lines are
    not used; the program takes the defaults of the tier instead. *)
Lemma blank_pipe_counterexample :
  ¬ (∀ TrimSpace path t fs i sc,
       path = "" → i = Piped sc → lines sc ≠ [] →
       fragments TrimSpace path t fs i
       = Continue (uniqStrings (scanWords TrimSpace (lines sc)))).
Proof.
  intros claim.
  specialize (claim id "" 3 (λ _, OpenErr) (Piped (mkScanned [""] false))
                (mkScanned [""] false) eq_refl eq_refl).
  assert (lines (mkScanned [""] false) ≠ []) as Hdata by done.
  specialize (claim Hdata). vm_compute in claim. discriminate claim.
Qed.

Example seed_defaults_tier2 :
  seed id "" "example.com" 2 (λ _, OpenErr) CharDevice =
  Continue
    ["www.example.com"; "mail.example.com"; "ftp.example.com";
     "api.example.com"; "dev.example.com"; "test.example.com";
     "stage.example.com"; "admin.example.com"; "portal.example.com";
     "beta.example.com"; "shop.example.com"; "cdn.example.com";
     "m.example.com"; "mobile.example.com"; "secure.example.com";
     "webmail.example.com"; "app.example.com"; "auth.example.com";
     "login.example.com"; "static.example.com"].
Proof. vm_compute. reflexivity. Qed.

Example seed_file_beats_stdin :
  seed id "words.txt" "example.com" 1
    (λ _, Opened (mkScanned ["www"; ""; "api"; "www"] false))
    (Piped (mkScanned ["mail"] false))
  = Continue ["www.example.com"; "api.example.com"].
Proof. vm_compute. reflexivity. Qed.

Example seed_unreadable_file :
  seed id "missing.txt" "example.com" 2 (λ _, OpenErr)
    (Piped (mkScanned ["mail"] false))
  = Exit 1.
Proof. reflexivity. Qed.

(** ** Classifier *)

Lemma wrap64_small z : - 2 ^ 63 ≤ z < 2 ^ 63 → wrap64 z = z.
Proof. intros Hz. unfold wrap64. rewrite Z.mod_small; lia. Qed.

(** [counts[k]++] touches the key [k] only. *)
Lemma incr_other k k' counts : k ≠ k' → incr k counts !! k' = counts !! k'.
Proof. intros Hne. unfold incr. by rewrite lookup_insert_ne. Qed.

Lemma key_inj b b' : key b = key b' → b = b'.
Proof. destruct b, b'; cbn; congruence. Qed.

(** Every status has a bucket, and only one. *)
Lemma assigned_exists s : ∃ b, assigned s b.
Proof.
  destruct (decide (s = 0)) as [->|H0]; [exists unreachable; constructor|].
  destruct (decide (s = 404)) as [->|H404]; [exists notFound; constructor|].
  destruct (decide (s = 301 ∨ s = 302)) as [Hr|Hr];
    [exists redirect; by constructor|].
  destruct (decide (200 ≤ s < 400)) as [Hl|Hl].
  - exists live. constructor; [done|lia..].
  - exists other. by constructor.
Qed.

Lemma assigned_unique s b b' : assigned s b → assigned s b' → b = b'.
Proof. destruct 1; inversion 1; subst; try done; lia. Qed.

(** The branch the classification loop takes is the bucket's. *)
Lemma classifyStep_assigned counts r b :
  assigned (Status r) b → classifyStep counts r = incr (key b) counts.
Proof.
  unfold classifyStep. inversion 1 as [Hs|Hs|s Hs Heq|s Hs H1 H2 Heq|s H0 H4 Hs Heq].
  - done.
  - done.
  - subst s. destruct Hs as [-> | ->]; done.
  - subst s.
    rewrite (proj2 (Z.eqb_neq _ _)), (proj2 (Z.eqb_neq _ _)),
      (proj2 (Z.eqb_neq _ _)), (proj2 (Z.eqb_neq _ _)) by lia.
    cbn [orb]. rewrite (proj2 (Z.leb_le _ _)), (proj2 (Z.ltb_lt _ _)) by lia.
    done.
  - subst s.
    rewrite (proj2 (Z.eqb_neq _ _)), (proj2 (Z.eqb_neq _ _)) by done.
    destruct (Z.eqb_spec (Status r) 301) as [E|_]; [lia|].
    destruct (Z.eqb_spec (Status r) 302) as [E|_]; [lia|]. cbn [orb].
    destruct (Z.leb_spec 200 (Status r)), (Z.ltb_spec (Status r) 400);
      cbn [andb]; try done; lia.
Qed.

Lemma tally_cons b r subs :
  tally b (r :: subs) =
  ((if decide (assigned (Status r) b) then 1 else 0) + tally b subs)%nat.
Proof.
  unfold tally. rewrite filter_cons.
  by destruct (decide (assigned (Status r) b)).
Qed.

(** The loop, from any counts that cannot overflow on the way. *)
Lemma classify_fold subs (counts : gmap string Z) (c : bucket → Z) :
  (∀ b, counts !! key b = Some (c b)) →
  (∀ b, 0 ≤ c b) →
  (∀ b, c b + Z.of_nat (length subs) < 2 ^ 63) →
  ∀ b, foldl classifyStep counts subs !! key b
       = Some (c b + Z.of_nat (tally b subs)).
Proof.
  revert counts c. induction subs as [|r subs IH]; intros counts c Hc Hpos Hmax b.
  - cbn. rewrite Hc. f_equal. unfold tally. cbn. lia.
  - cbn [foldl].
    destruct (assigned_exists (Status r)) as [b0 Hb0].
    rewrite (classifyStep_assigned _ _ _ Hb0).
    rewrite (IH _ (λ b, if decide (b = b0) then c b + 1 else c b)).
    + f_equal. rewrite tally_cons.
      destruct (decide (b = b0)) as [->|Hne].
      * rewrite decide_True by done. lia.
      * rewrite decide_False; [lia|].
        intros Hb. by apply Hne, (assigned_unique (Status r)).
    + intros b1. unfold incr. rewrite Hc. cbn [default].
      destruct (decide (b1 = b0)) as [->|Hne].
      * rewrite lookup_insert_eq. f_equal. apply wrap64_small.
        specialize (Hpos b0). specialize (Hmax b0). cbn [length] in Hmax. lia.
      * rewrite lookup_insert_ne; [done|]. intros Hk. by apply Hne, key_inj.
    + intros b1. specialize (Hpos b1). case_decide; lia.
    + intros b1. specialize (Hmax b1). cbn [length] in Hmax. case_decide; lia.
Qed.

Lemma tally_Permutation b subs subs' :
  subs ≡ₚ subs' → tally b subs = tally b subs'.
Proof. intros Hp. unfold tally. by rewrite Hp. Qed.

Lemma tally_values b (kvs : list (string * Result)) :
  tally b (kvs.*2) =
  length (filter (λ kv : string * Result, assigned (Status kv.2) b) kvs).
Proof.
  unfold tally. induction kvs as [|kv kvs IH]; [done|].
  cbn [fmap list_fmap]. rewrite !filter_cons.
  destruct (decide (assigned (Status kv.2) b)); cbn; by rewrite IH.
Qed.

(** C5. Every status falls in exactly one bucket, the one the
    specification names; the classification loop counts each result under
    that bucket's key and no other; and once the loop has run over the
    registry's values, each bucket's count is the number of registry
    entries in it. (A registry is a Go map, so its size fits an [int].) *)
Theorem classifier_counts found subs :
  enumerates found subs → Z.of_nat (size found) < 2 ^ 63 →
  (∀ status, ∃ b, assigned status b ∧ ∀ b', assigned status b' → b' = b)
  ∧ (∀ counts r b, assigned (Status r) b →
       classifyStep counts r = incr (key b) counts)
  ∧ ∀ b, classify subs !! key b =
         Some (Z.of_nat (length (filter
                 (λ kv : string * Result, assigned (Status kv.2) b)
                 (map_to_list found)))).
Proof.
  intros Henum Hsize. split_and!.
  - intros status. destruct (assigned_exists status) as [b Hb].
    exists b. split; [done|]. intros b' Hb'.
    by apply (assigned_unique status).
  - apply classifyStep_assigned.
  - intros b. unfold classify.
    assert (length subs = size found) as Hlen.
    { unfold enumerates in Henum. rewrite Henum, length_fmap.
      by rewrite length_map_to_list. }
    rewrite (classify_fold subs counts0 (λ _, 0)).
    + f_equal. rewrite Z.add_0_l. f_equal.
      unfold enumerates in Henum.
      by rewrite (tally_Permutation _ _ _ Henum), tally_values.
    + by intros [].
    + done.
    + intros _. rewrite Hlen. lia.
Qed.

Lemma sampleSubs_enumerates : enumerates (found sampleFinal) sampleSubs.
Proof.
  unfold enumerates. vm_compute.
  first [reflexivity | apply perm_swap].
Qed.

Lemma classifier_counts_witness :
  (∀ status, ∃ b, assigned status b ∧ ∀ b', assigned status b' → b' = b)
  ∧ (∀ counts r b, assigned (Status r) b →
       classifyStep counts r = incr (key b) counts)
  ∧ ∀ b, classify sampleSubs !! key b =
         Some (Z.of_nat (length (filter
                 (λ kv : string * Result, assigned (Status kv.2) b)
                 (map_to_list (found sampleFinal))))).
Proof.
  apply (classifier_counts (found sampleFinal) sampleSubs).
  - apply sampleSubs_enumerates.
  - vm_compute. reflexivity.
Defined.

(** The scenario of the specification: one live host, one unreachable. *)
Example classify_sample :
  classify sampleSubs =
  <["live" := 1]> (<["404" := 0]> (<["301" := 0]> (<["other" := 0]>
    (<["unreachable" := 1]> ∅)))).
Proof. vm_compute. reflexivity. Qed.

(** ** Report *)

(** Whatever algorithm [sort.Strings] runs, its result is this list: a
    list has one sorted rearrangement only. *)
Lemma sortStrings_unique l l' :
  Sorted String.le l' → l' ≡ₚ l → l' = sortStrings l.
Proof.
  intros Hsorted Hperm. apply (Sorted_unique String.le); [done| |].
  - apply Sorted_merge_sort. apply _.
  - unfold sortStrings. by rewrite merge_sort_Permutation.
Qed.

(** Without the filter the report is the sorted list of all lines. *)
Lemma outLines_all_sorted subs :
  Sorted String.le (outLines false subs)
  ∧ outLines false subs ≡ₚ line <$> subs.
Proof.
  unfold outLines, sortStrings. split.
  - apply Sorted_merge_sort. apply _.
  - apply merge_sort_Permutation.
Qed.

(** With the filter the report holds the lines of the live results, in the
    order [subs] lists them. *)
Lemma outLines_live subs :
  outLines true subs = line <$> filter (λ r, 200 ≤ Status r < 400) subs.
Proof.
  unfold outLines. f_equal. apply list_filter_iff. intros r.
  unfold isLive. rewrite andb_true_iff, Z.leb_le, Z.ltb_lt. done.
Qed.

Lemma liveSubs_enumerates : enumerates liveFound liveSubs.
Proof.
  unfold enumerates. vm_compute.
  first [reflexivity | apply perm_swap].
Qed.

(** C4, on the code. With the [-x] filter the lines are rebuilt from
    [subs] after the sort and written in the order the map iteration
    produced: for a registry of two live hosts listed [b] first, the
    report is not sorted. *)
Theorem filtered_report_unsorted :
  enumerates liveFound liveSubs
  ∧ outLines true liveSubs = ["b.example.com 200"; "a.example.com 200"]
  ∧ ¬ Sorted String.le (outLines true liveSubs)
  ∧ outLines false liveSubs = ["a.example.com 200"; "b.example.com 200"].
Proof.
  split_and!.
  - apply liveSubs_enumerates.
  - vm_compute. reflexivity.
  - intros Hsorted. apply Sorted_inv in Hsorted as [_ Hhd].
    change (outLines true liveSubs)
      with ["b.example.com 200"; "a.example.com 200"] in Hhd.
    apply HdRel_inv in Hhd. vm_compute in Hhd. done.
  - vm_compute. reflexivity.
Qed.

(** * Further properties of the code *)

(** ** Names and labels *)

Lemma Split_dotfree s sep :
  length (Split s sep) = 1%nat → Split s sep = [s].
Proof.
  induction s as [|a s IH]; [done|].
  rewrite Split_cons. cbn [Split].
  destruct (Ascii.eqb a sep).
  - pose proof (Split_length_pos s sep). lia.
  - intros Hlen. by rewrite (IH Hlen).
Qed.

(** A separator between two strings separates their fields. *)
Lemma Split_sep a b sep :
  Split (a +:+ String sep b) sep = Split a sep ++ Split b sep.
Proof.
  induction a as [|c a IH].
  - change (EmptyString +:+ String sep b) with (String sep b).
    cbn [Split]. by rewrite Ascii.eqb_refl.
  - change (String c a +:+ String sep b) with (String c (a +:+ String sep b)).
    cbn [Split]. rewrite IH.
    destruct (Ascii.eqb c sep); [done|].
    pose proof (Split_nonempty a sep) as Hne.
    by destruct (Split a sep).
Qed.

Lemma candidate_split w domain :
  Split ((w +:+ ".") +:+ domain) dot = Split w dot ++ Split domain dot.
Proof.
  rewrite append_assoc.
  change ("." +:+ domain) with (String dot domain).
  apply Split_sep.
Qed.

Lemma Split_fields_sepfree s sep :
  Forall (λ field, sep ∉ list_ascii_of_string field) (Split s sep).
Proof.
  induction s as [|a s IH].
  - repeat constructor. cbn. by intros ?%elem_of_nil.
  - cbn [Split]. destruct (Ascii.eqb_spec a sep) as [->|Hne].
    + constructor; [|done]. cbn. by intros ?%elem_of_nil.
    + pose proof (Split_nonempty s sep) as Hs.
      destruct (Split s sep) as [|field fields]; [done|].
      apply Forall_cons in IH as [Hfield Hfields].
      constructor; [|done]. cbn. intros [?|?]%elem_of_cons; [congruence|done].
Qed.

Lemma Split_concat s sep :
  String.concat (String sep EmptyString) (Split s sep) = s.
Proof.
  induction s as [|a s IH]; [done|].
  cbn [Split]. pose proof (Split_nonempty s sep) as Hs.
  destruct (Ascii.eqb_spec a sep) as [->|Hne].
  - destruct (Split s sep) as [|field fields] eqn:E; [done|].
    change (String.concat (String sep "") ("" :: field :: fields))
      with (String sep (String.concat (String sep "") (field :: fields))).
    by rewrite IH.
  - destruct (Split s sep) as [|field fields] eqn:E; [done|].
    destruct fields as [|field' fields].
    + cbn in IH. cbn. by rewrite IH.
    + change (String.concat (String sep "") (String a field :: field' :: fields))
        with (String a (String.concat (String sep "") (field :: field' :: fields))).
      by rewrite IH.
Qed.

(** X1. [strings.Split] as the collector calls it on a name: joining the
    fields with the separator gives the name back, no field contains the
    separator, and there is one field more than the name has separators. *)
Theorem Split_join s sep :
  String.concat (String sep EmptyString) (Split s sep) = s
  ∧ Forall (λ field, sep ∉ list_ascii_of_string field) (Split s sep)
  ∧ length (Split s sep)
    = S (length (filter (λ a, a = sep) (list_ascii_of_string s))).
Proof.
  split_and!.
  - apply Split_concat.
  - apply Split_fields_sepfree.
  - induction s as [|a s IH]; [done|].
    rewrite Split_cons. cbn [list_ascii_of_string]. rewrite filter_cons.
    destruct (Ascii.eqb_spec a sep) as [->|Hne].
    + rewrite decide_True by done. cbn [length]. by rewrite IH.
    + by rewrite decide_False by done.
Qed.

(** X2. A seed candidate built from a word without dots splits into that
    word followed by the labels of the root: the word is the label the
    expander will take, and the candidate has one label more than the
    root. *)
Theorem seed_candidate_labels w domain :
  length (Split w dot) = 1%nat →
  Split ((w +:+ ".") +:+ domain) dot = w :: Split domain dot
  ∧ firstLabel ((w +:+ ".") +:+ domain) = w
  ∧ length (Split ((w +:+ ".") +:+ domain) dot)
    = S (length (Split domain dot)).
Proof.
  intros Hw. apply Split_dotfree in Hw.
  assert (Split ((w +:+ ".") +:+ domain) dot = w :: Split domain dot) as Hsplit
    by (by rewrite candidate_split, Hw).
  split_and!; [done| |].
  - unfold firstLabel. by rewrite Hsplit.
  - by rewrite Hsplit.
Qed.

Lemma seed_candidate_labels_witness :
  Split (("www" +:+ ".") +:+ "example.com") dot = "www" :: Split "example.com" dot
  ∧ firstLabel (("www" +:+ ".") +:+ "example.com") = "www"
  ∧ length (Split (("www" +:+ ".") +:+ "example.com") dot)
    = S (length (Split "example.com" dot)).
Proof.
  apply (seed_candidate_labels "www" "example.com"). reflexivity.
Defined.

(** X3. In deep mode, under a root of two labels or more, a seed
    candidate [w.root] built from a word [w] without dots that answers with
    a non-zero status has [w-stage.root], [w-dev.root] and [api.w.root]
    offered to the open queue; those the registry does not hold are
    enqueued in this order. *)
Theorem seed_expansion w domain status ip found jobs :
  length (Split w dot) = 1%nat → (2 ≤ length (Split domain dot))%nat →
  status ≠ 0 → closed jobs = false →
  expand true domain (mkResult ((w +:+ ".") +:+ domain) status ip) found jobs =
  Done (mkChan (buf jobs ++
                absent found [w +:+ "-stage." +:+ domain;
                              w +:+ "-dev." +:+ domain;
                              "api." +:+ w +:+ "." +:+ domain]) false).
Proof.
  intros Hw Hroot Hs Hopen.
  apply Split_dotfree in Hw.
  assert (Split ((w +:+ ".") +:+ domain) dot = w :: Split domain dot) as Hsplit
    by (by rewrite candidate_split, Hw).
  rewrite expand_deep; cbn [Subdomain Status]; [|done|].
  - unfold firstLabel. rewrite Hsplit. cbn [head default].
    rewrite <- permutations_names. by apply enqueueAll_open.
  - rewrite Hsplit. cbn [length]. lia.
Qed.

Lemma seed_expansion_witness :
  expand true "example.com"
    (mkResult (("www" +:+ ".") +:+ "example.com") 200 "1.2.3.4") ∅ make
  = Done (mkChan ["www-stage.example.com"; "www-dev.example.com";
                  "api.www.example.com"] false).
Proof.
  etrans.
  - apply (seed_expansion "www" "example.com" 200 "1.2.3.4" ∅ make).
    + reflexivity.
    + cbn. lia.
    + done.
    + done.
  - vm_compute. reflexivity.
Defined.

(** ** Candidate source *)

Lemma list_ascii_of_string_append a b :
  list_ascii_of_string (a +:+ b)
  = list_ascii_of_string a ++ list_ascii_of_string b.
Proof.
  induction a as [|x a IH]; [done|].
  change (String x a +:+ b) with (String x (a +:+ b)). cbn. by rewrite IH.
Qed.

Lemma list_ascii_of_string_inj a b :
  list_ascii_of_string a = list_ascii_of_string b → a = b.
Proof.
  intros H. rewrite <- (string_of_list_ascii_of_string a),
    <- (string_of_list_ascii_of_string b). by rewrite H.
Qed.

(** Two words give the same candidate only if they are the same word. *)
Lemma candidate_inj domain w w' :
  (w +:+ ".") +:+ domain = (w' +:+ ".") +:+ domain → w = w'.
Proof.
  intros H. apply (f_equal list_ascii_of_string) in H.
  rewrite !list_ascii_of_string_append in H.
  apply app_inv_tail in H. apply app_inv_tail in H.
  by apply list_ascii_of_string_inj.
Qed.

(** The loop of [uniqStrings] over strings that need no filtering. *)
Lemma uniq_fold_id input (m : gset string) (out : list string) :
  NoDup input → ("" ∉ input) → (∀ s, s ∈ input → s ∉ m) →
  (foldl uniqStep (m, out) input).2 = out ++ input.
Proof.
  revert m out. induction input as [|x input IH]; intros m out Hnd Hne Hfresh.
  - cbn. by rewrite app_nil_r.
  - cbn [foldl]. unfold uniqStep at 2.
    apply NoDup_cons in Hnd as [Hx Hnd].
    rewrite decide_False; [|intros ->; apply Hne; by left].
    rewrite decide_False; [|apply Hfresh; by left].
    rewrite IH; [by rewrite <- app_assoc|done| |].
    + intros Hin. apply Hne. by right.
    + intros s Hs. rewrite elem_of_union, elem_of_singleton.
      intros [->|Hm]; [done|]. apply (Hfresh s); [by right|done].
Qed.

Lemma uniqStrings_id l : NoDup l → ("" ∉ l) → uniqStrings l = l.
Proof.
  intros Hnd Hne. unfold uniqStrings.
  rewrite uniq_fold_id; [done..|]. intros s _. apply not_elem_of_empty.
Qed.

(** X4. [uniqStrings] leaves a list alone that has no empty string and no
    repetition, so applying it twice is the same as applying it once. *)
Theorem uniqStrings_idempotent words :
  uniqStrings (uniqStrings words) = uniqStrings words
  ∧ (NoDup words → ("" ∉ words) → uniqStrings words = words).
Proof.
  split.
  - destruct (uniqStrings_spec words) as (Hnd & Hne & _).
    by apply uniqStrings_id.
  - apply uniqStrings_id.
Qed.

(** X5. The initial candidates of a run are pairwise different, one for
    each distinct non-empty word, each the word followed by a dot and the
    root. *)
Theorem candidates_distinct words domain :
  NoDup (candidates (uniqStrings words) domain)
  ∧ length (candidates (uniqStrings words) domain)
    = length (uniqStrings words)
  ∧ ∀ c, c ∈ candidates (uniqStrings words) domain
         ↔ ∃ w, w ∈ words ∧ w ≠ "" ∧ c = (w +:+ ".") +:+ domain.
Proof.
  destruct (uniqStrings_spec words) as (Hnd & _ & Hmem & _).
  unfold candidates. split_and!.
  - apply NoDup_fmap_2_strong; [|done].
    intros w w' _ _. apply candidate_inj.
  - apply length_fmap.
  - intros c. rewrite list_elem_of_fmap. split.
    + intros (w & -> & Hw). apply Hmem in Hw as [Hw Hne]. by exists w.
    + intros (w & Hw & Hne & ->). exists w. split; [done|].
      apply Hmem. by split.
Qed.

Lemma scanWords_filter TrimSpace ls :
  scanWords TrimSpace ls = filter (λ l, l ≠ "") (TrimSpace <$> ls).
Proof.
  induction ls as [|l ls IH]; [done|].
  cbn [scanWords fmap list_fmap]. rewrite filter_cons.
  destruct (decide (TrimSpace l ≠ "")); by rewrite IH.
Qed.

(** X6. Both loaders read the same words from the same lines: the trimmed
    lines that are not empty, in the order of the lines; no loaded word is
    empty. A file that cannot be opened, and standard input that cannot
    be examined, give no words and an error. *)
Theorem loaders_agree TrimSpace sc :
  (loadWordlistFromFile TrimSpace (Opened sc)).1
  = (loadWordlistFromStdin TrimSpace (Piped sc)).1
  ∧ (loadWordlistFromFile TrimSpace (Opened sc)).1
    = filter (λ l, l ≠ "") (TrimSpace <$> lines sc)
  ∧ ("" ∉ (loadWordlistFromFile TrimSpace (Opened sc)).1)
  ∧ (loadWordlistFromFile TrimSpace (Opened sc)).2
    = (loadWordlistFromStdin TrimSpace (Piped sc)).2
  ∧ loadWordlistFromFile TrimSpace OpenErr = ([], true)
  ∧ loadWordlistFromStdin TrimSpace StatErr = ([], true).
Proof.
  cbn [loadWordlistFromFile loadWordlistFromStdin fst snd].
  split_and!; try done.
  - apply scanWords_filter.
  - rewrite scanWords_filter, list_elem_of_filter. by intros [Hne _].
Qed.

(** X7. With a root domain given, a [-w] file that can be read but holds
    no word starts a scan with no candidate at all: neither standard input
    nor the built-in defaults are consulted. *)
Theorem empty_wordlist_file TrimSpace path domain t fs i ls :
  domain ≠ "" →
  path ≠ "" → fs path = Opened (mkScanned ls false) →
  scanWords TrimSpace ls = [] →
  seed TrimSpace path domain t fs i = Continue [].
Proof.
  intros Hdomain Hpath Hfs Hnone. unfold seed, fragments, chooseWords.
  rewrite decide_False by done. rewrite decide_True by done. rewrite Hfs.
  cbn [loadWordlistFromFile lines scanErr]. by rewrite Hnone.
Qed.

Lemma empty_wordlist_file_witness :
  seed id "empty.txt" "example.com" 2
    (λ _, Opened (mkScanned [""; ""] false)) (Piped (mkScanned ["www"] false))
  = Continue [].
Proof.
  apply (empty_wordlist_file id "empty.txt" "example.com" 2
           (λ _, Opened (mkScanned [""; ""] false))
           (Piped (mkScanned ["www"] false)) [""; ""]).
  - done.
  - done.
  - reflexivity.
  - reflexivity.
Defined.

(** ** Producer *)

Lemma feed_open cs jobs :
  closed jobs = false → feed cs jobs = Done (mkChan (buf jobs ++ cs) false).
Proof.
  revert jobs. induction cs as [|c cs IH]; intros jobs Hopen.
  - cbn. rewrite app_nil_r, <- Hopen. by rewrite chan_eta.
  - cbn [feed]. rewrite send_open by done. cbn.
    rewrite IH by done. cbn. by rewrite <- app_assoc.
Qed.

(** X8. Seeding an open queue never fails: afterwards the queue holds the
    candidates behind what it held, in seed order, and it is closed exactly
    when recursion is off. On a queue that is already closed, which in deep
    mode the coordinator's timer can bring about while seeding is still
    under way, the first send panics. *)
Theorem producer_seeds deep cs jobs :
  (closed jobs = false →
   producer deep cs jobs = Done (mkChan (buf jobs ++ cs) (negb deep)))
  ∧ (closed jobs = true → cs ≠ [] →
     producer deep cs jobs = Panic "send on closed channel").
Proof.
  split.
  - intros Hopen. unfold producer. rewrite feed_open by done. cbn.
    by destruct deep.
  - intros Hclosed Hcs. unfold producer.
    destruct cs as [|c cs]; [done|]. cbn [feed].
    by rewrite send_closed.
Qed.

Lemma producer_seeds_witness :
  producer false ["www.example.com"; "mail.example.com"] make
  = Done (mkChan ["www.example.com"; "mail.example.com"] true)
  ∧ producer true ["www.example.com"] (mkChan [] true)
    = Panic "send on closed channel".
Proof.
  split.
  - apply (producer_seeds false ["www.example.com"; "mail.example.com"] make).
    reflexivity.
  - by apply (producer_seeds true ["www.example.com"] (mkChan [] true)).
Defined.

(** ** Registry and queue over a run of the collector *)

Lemma firstFor_Some k rs r :
  firstFor k rs = Some r → r ∈ rs ∧ Subdomain r = k.
Proof.
  unfold firstFor. intros H%head_Some_elem_of.
  apply list_elem_of_filter in H. tauto.
Qed.

(** X9. Whatever the run, an entry of the registry is filed under the
    subdomain of the result it holds, that result is one the collector
    consumed, and entries never change once made: what the registry held
    before a run it still holds after it. *)
Theorem registry_entries deep domain es p p' k r :
  run deep domain es p = Done p' →
  (found p !! k = Some r → found p' !! k = Some r)
  ∧ (found p !! k = None → found p' !! k = Some r →
     r ∈ consumedResults es ∧ Subdomain r = k).
Proof.
  intros Hrun. rewrite (run_found _ _ _ _ _ Hrun), foldl_record_lookup.
  split.
  - by intros ->.
  - intros ->. apply firstFor_Some.
Qed.

Lemma registry_entries_witness :
  found sampleFinal !! "www.example.com"
  = Some (mkResult "www.example.com" 200 "1.2.3.4")
  ∧ mkResult "mail.example.com" 0 "" ∈ consumedResults sampleEvents.
Proof.
  split.
  - apply (registry_entries false "example.com"
             [Consume (mkResult "www.example.com" 404 "5.6.7.8")]
             sampleFinal sampleFinal "www.example.com"
             (mkResult "www.example.com" 200 "1.2.3.4")).
    + vm_compute. reflexivity.
    + vm_compute. reflexivity.
  - apply (registry_entries false "example.com" sampleEvents
             (start ["www.example.com"]) sampleFinal "mail.example.com"
             (mkResult "mail.example.com" 0 "")).
    + vm_compute. reflexivity.
    + vm_compute. reflexivity.
    + vm_compute. reflexivity.
Defined.

(** X10. After a run from the empty registry, the keys of the registry
    are exactly the subdomains of the results consumed, so the registry has
    as many entries as there are distinct subdomains among them. *)
Theorem registry_keys deep domain seeded es p :
  run deep domain es (start seeded) = Done p →
  dom (found p) = list_to_set (Subdomain <$> consumedResults es)
  ∧ size (found p)
    = length (remove_dups (Subdomain <$> consumedResults es)).
Proof.
  intros Hrun.
  assert (dom (found p) = list_to_set (Subdomain <$> consumedResults es))
    as Hdom.
  { apply set_eq. intros k.
    rewrite elem_of_dom, elem_of_list_to_set,
      (run_found _ _ _ _ _ Hrun), foldl_record_lookup.
    cbn [start found]. rewrite lookup_empty. split.
    - intros [r Hr]. apply firstFor_Some in Hr as [Hin <-].
      by apply list_elem_of_fmap_2.
    - intros Hk. destruct (firstFor_consumed _ _ Hk) as (r & Hr & _).
      by exists r. }
  split; [done|].
  rewrite <- size_dom, Hdom.
  rewrite <- (size_list_to_set (C := gset string) (remove_dups _))
    by apply NoDup_remove_dups.
  f_equal. apply set_eq. intros k.
  by rewrite !elem_of_list_to_set, elem_of_remove_dups.
Qed.

Lemma registry_keys_witness :
  dom (found sampleFinal)
  = list_to_set (Subdomain <$> consumedResults sampleEvents)
  ∧ size (found sampleFinal)
    = length (remove_dups (Subdomain <$> consumedResults sampleEvents)).
Proof.
  apply (registry_keys false "example.com"
           ["www.example.com"; "mail.example.com"; "www.example.com"]
           sampleEvents sampleFinal).
  vm_compute. reflexivity.
Defined.

Lemma enqueueAll_done found cs jobs jobs' :
  enqueueAll found cs jobs = Done jobs' →
  buf jobs' = buf jobs ++ absent found cs ∧ closed jobs' = closed jobs.
Proof.
  revert jobs. induction cs as [|c cs IH]; intros jobs; cbn [enqueueAll].
  - intros [= <-]. by rewrite app_nil_r.
  - unfold absent, enqueue. rewrite filter_cons.
    destruct (found !! c) as [r|] eqn:Hc.
    + rewrite decide_False by done. cbn. apply IH.
    + rewrite decide_True by done. unfold send.
      destruct (closed jobs) eqn:Hclosed; [done|]. cbn.
      intros [Hbuf Hcl]%IH. cbn in Hbuf, Hcl.
      by rewrite Hbuf, Hcl, <- app_assoc.
Qed.

(** The recursion step, when it returns, leaves the queue as open or
    closed as it was and has at most appended the absent names. *)
Lemma expand_done deep domain r found jobs jobs' :
  expand deep domain r found jobs = Done jobs' →
  closed jobs' = closed jobs
  ∧ (jobs' = jobs
     ∨ buf jobs' = buf jobs
         ++ absent found (permutations (firstLabel (Subdomain r)) domain)).
Proof.
  destruct (decide (inert deep r)) as [Hinert|Hactive].
  - rewrite expand_skip by done. intros [= <-]. by split; [|left].
  - unfold inert in Hactive.
    assert (deep = true) as -> by (destruct deep; tauto).
    rewrite expand_deep by (lia || tauto).
    intros [Hbuf Hcl]%enqueueAll_done. by split; [|right].
Qed.

Lemma permutations_under_root sub domain c :
  c ∈ permutations sub domain → ∃ pre, c = (pre +:+ ".") +:+ domain.
Proof.
  unfold permutations. intros Hc.
  apply elem_of_cons in Hc as [->|Hc]; [|apply elem_of_cons in Hc as [->|Hc]].
  - exists (sub +:+ "-stage"). by rewrite (append_assoc sub "-stage" ".").
  - exists (sub +:+ "-dev"). by rewrite (append_assoc sub "-dev" ".").
  - apply list_elem_of_singleton in Hc as ->. by exists ("api." +:+ sub).
Qed.

(** X11. A run in which the expander passes over every result it sees
    (recursion off, or only silent hosts, or only names of fewer than three
    labels) returns as long as the queue is closed at most once, and never
    adds to the job queue: what is left in the queue is a tail of what was
    there. In particular a shallow scan probes the seed and nothing else. *)
Theorem run_inert deep domain es p :
  Forall (inert deep) (consumedResults es) →
  (closes es ≤ if closed (jobs p) then 0 else 1)%nat →
  ∃ p', run deep domain es p = Done p'
        ∧ buf (jobs p') `suffix_of` buf (jobs p).
Proof.
  revert p. induction es as [|e es IH]; intros p Hinert Hclose.
  { by exists p. }
  unfold closes in Hclose. rewrite filter_cons in Hclose. cbn [run].
  destruct e as [r| |]; cbn [step].
  - rewrite decide_False in Hclose by done.
    change (consumedResults (Consume r :: es))
      with (r :: consumedResults es) in Hinert.
    apply Forall_cons in Hinert as [Hr Hinert].
    unfold collect. rewrite expand_skip by done. cbn.
    by apply (IH (mkPipeline (record r (found p)) (jobs p))).
  - rewrite decide_True in Hclose by done. cbn [length] in Hclose.
    unfold close. destruct (closed (jobs p)) eqn:Hc; [lia|]. cbn.
    apply (IH (mkPipeline (found p) (mkChan (buf (jobs p)) true))); [done|].
    unfold closes. cbn. lia.
  - rewrite decide_False in Hclose by done.
    unfold recv. destruct (buf (jobs p)) as [|c rest] eqn:Hbuf.
    + destruct (closed (jobs p)) eqn:Hc; cbn.
      all: destruct (IH p Hinert) as (p' & Hrun & Hsuf);
        [unfold closes; by rewrite Hc|].
      all: exists p'; by rewrite <- Hbuf.
    + cbn.
      destruct (IH (mkPipeline (found p) (mkChan rest (closed (jobs p))))
                  Hinert) as (p' & Hrun & Hsuf); [done|].
      exists p'. split; [done|]. cbn in Hsuf. by apply suffix_cons_r.
Qed.

Lemma run_inert_witness :
  ∃ p', run false "example.com" sampleEvents
          (start ["www.example.com"; "mail.example.com"; "www.example.com"])
        = Done p'
        ∧ buf (jobs p')
          `suffix_of` buf (jobs (start ["www.example.com"; "mail.example.com";
                                        "www.example.com"])).
Proof.
  apply (run_inert false "example.com" sampleEvents
           (start ["www.example.com"; "mail.example.com"; "www.example.com"])).
  - repeat constructor.
  - vm_compute. lia.
Defined.

(** X12. Recursion never leaves the root: after any run, every name in
    the job queue either was in it before or is a derived name, that is
    some prefix followed by a dot and the root domain. *)
Theorem run_under_root deep domain es p p' c :
  run deep domain es p = Done p' → c ∈ buf (jobs p') →
  c ∈ buf (jobs p) ∨ ∃ pre, c = (pre +:+ ".") +:+ domain.
Proof.
  revert p. induction es as [|e es IH]; intros p; cbn [run].
  { intros [= <-]. by left. }
  destruct (step deep domain e p) as [p1|] eqn:Hstep; cbn; [|done].
  intros Hrun Hc. destruct (IH p1 Hrun Hc) as [Hin|Hder]; [|by right].
  destruct e as [r| |]; cbn [step] in Hstep.
  - unfold collect in Hstep.
    destruct (expand deep domain r (record r (found p)) (jobs p)) as [j|] eqn:He;
      cbn in Hstep; [|done].
    injection Hstep as <-. cbn [jobs] in Hin.
    apply expand_done in He as [_ [->|Hbuf]]; [by left|].
    rewrite Hbuf, elem_of_app in Hin. destruct Hin as [Hin|Hin]; [by left|].
    right. apply list_elem_of_filter in Hin as [_ Hin].
    by apply (permutations_under_root _ _ _ Hin).
  - unfold close in Hstep. destruct (closed (jobs p)); cbn in Hstep; [done|].
    injection Hstep as <-. by left.
  - unfold recv in Hstep. destruct (buf (jobs p)) as [|c0 rest] eqn:Hbuf.
    + destruct (closed (jobs p)); injection Hstep as <-;
        left; by rewrite <- Hbuf.
    + injection Hstep as <-. cbn in Hin. left. by right.
Qed.

Lemma run_under_root_witness :
  "mail-stage.example.com" ∈ buf (jobs (start []))
  ∨ ∃ pre, "mail-stage.example.com" = (pre +:+ ".") +:+ "example.com".
Proof.
  apply (run_under_root true "example.com"
           [Consume (mkResult "mail.example.com" 200 "1.2.3.4")]
           (start [])
           (mkPipeline
              (<["mail.example.com" := mkResult "mail.example.com" 200 "1.2.3.4"]> ∅)
              (mkChan ["mail-stage.example.com"; "mail-dev.example.com";
                       "api.mail.example.com"] false))).
  - vm_compute. reflexivity.
  - cbn. left.
Defined.

(** ** Worker *)

Lemma probed_verbose net sub :
  (probed net true sub).1 = (probed net false sub).1.
Proof. done. Qed.

(** With or without [-v], a run goes the same way for the result stream,
    a panic included. *)
Lemma worker_verbose sel w1 w2 :
  results w1 = results w2 →
  results <$> worker true sel w1 = results <$> worker false sel w2.
Proof.
  revert w1 w2. induction sel as [|[| |sub net] sel IH]; intros w1 w2 Hres.
  1-3: cbn; by rewrite Hres.
  cbn [worker].
  destruct (decide (builds net sub)) as [Hb|Hb].
  - rewrite !probe_builds by done.
    pose proof (probed_verbose net sub) as Hsame.
    destruct (probed net true sub) as [r effs],
             (probed net false sub) as [r' effs'].
    cbn in Hsame. subst r'. cbn. rewrite Hres.
    destruct (send (results w2) r) as [res|]; cbn; [|done].
    by apply IH.
  - by rewrite !probe_nil_request.
Qed.

(** X13. Verbose mode only prints: the results a worker publishes are the
    same with [-v] as without it. *)
Theorem verbose_same_results sel w :
  closed (results w) = false →
  results <$> worker true sel w = results <$> worker false sel w.
Proof. intros _. by apply worker_verbose. Qed.

Lemma verbose_same_results_witness :
  results <$> worker true
                [Job "www.example.com" netLive; Job "mail.example.com" netDown]
                (mkW make [])
  = results <$> worker false
                  [Job "www.example.com" netLive; Job "mail.example.com" netDown]
                  (mkW make []).
Proof.
  apply (verbose_same_results
           [Job "www.example.com" netLive; Job "mail.example.com" netDown]
           (mkW make [])).
  reflexivity.
Defined.

Lemma count_app f effs effs' :
  count f (effs ++ effs') = (count f effs + count f effs')%nat.
Proof. induction effs as [|e effs IH]; [done|]. cbn. rewrite IH. lia. Qed.

(** One probe: one lookup, one or two calls of [client.Do], one line when
    verbose. *)
Lemma probed_effects net verbose sub :
  count isResolve (probed net verbose sub).2 = 1%nat
  ∧ (1 ≤ count isGet (probed net verbose sub).2 ≤ 2)%nat
  ∧ count isPrinted (probed net verbose sub).2 = (if verbose then 1 else 0)%nat.
Proof.
  unfold probed. cbn [snd].
  destruct (decide (responds (Do net ("http://" +:+ sub)))), verbose;
    cbn; lia.
Qed.

Lemma probes_effects verbose sel :
  let effs := mjoin ((probes verbose sel).*2) in
  let n := length (consumed sel) in
  count isResolve effs = n
  ∧ (n ≤ count isGet effs ≤ 2 * n)%nat
  ∧ count isPrinted effs = (if verbose then n else 0)%nat.
Proof.
  induction sel as [|[| |sub net] sel IH];
    [by destruct verbose..|].
  cbv zeta in IH. cbv zeta.
  change (mjoin ((probes verbose (Job sub net :: sel)).*2))
    with ((probed net verbose sub).2 ++ mjoin ((probes verbose sel).*2)).
  cbn [consumed length]. rewrite !count_app.
  destruct IH as (Hr & Hg & Hp).
  destruct (probed_effects net verbose sub) as (Hr1 & Hg1 & Hp1).
  rewrite Hr, Hr1, Hp, Hp1. split_and!; [lia|lia|lia|].
  destruct verbose; lia.
Qed.

(** X14. The cost of a worker's run over candidates whose requests can be
    built: for the candidates it takes it makes exactly one DNS lookup each
    and at least one and at most two calls of [client.Do] each, no call is
    repeated, and it prints one line per candidate in verbose mode and
    nothing otherwise. *)
Theorem worker_network_budget verbose sel w :
  closed (results w) = false → buildable sel →
  ∃ w' effs,
    worker verbose sel w = Done w'
    ∧ log w' = log w ++ effs
    ∧ count isResolve effs = length (consumed sel)
    ∧ (length (consumed sel) ≤ count isGet effs ≤ 2 * length (consumed sel))%nat
    ∧ count isPrinted effs = (if verbose then length (consumed sel) else 0)%nat.
Proof.
  intros Hopen Hb. rewrite worker_run by done.
  eexists _, (mjoin ((probes verbose sel).*2)).
  split; [done|]. split; [done|].
  apply probes_effects.
Qed.

Lemma worker_network_budget_witness :
  ∃ w' effs,
    worker true [Job "www.example.com" netLive; Job "mail.example.com" netDown;
                 CtxDone]
      (mkW make []) = Done w'
    ∧ log w' = log (mkW make []) ++ effs
    ∧ count isResolve effs = 2%nat
    ∧ (2 ≤ count isGet effs ≤ 4)%nat
    ∧ count isPrinted effs = 2%nat.
Proof.
  apply (worker_network_budget true
           [Job "www.example.com" netLive; Job "mail.example.com" netDown;
            CtxDone]
           (mkW make [])).
  - reflexivity.
  - split; [split; [by vm_compute|intros _; by vm_compute]|].
    split; [split; [by vm_compute|intros _; by vm_compute]|]. exact I.
Defined.

(** X15. Workers and collector together: when a worker's run has
    returned and the collector has consumed what it published on a fresh
    result stream, the registry's keys are exactly the candidates that
    worker took off the job queue. *)
Theorem consumed_candidates_registered verbose sel w' deep domain seeded es p :
  worker verbose sel (mkW make []) = Done w' →
  consumedResults es = buf (results w') →
  run deep domain es (start seeded) = Done p →
  dom (found p) = list_to_set (consumed sel).
Proof.
  intros Hworker Hes Hrun.
  pose proof (worker_Done_buildable _ _ _ _ Hworker) as Hb.
  rewrite worker_run in Hworker by done. injection Hworker as <-.
  cbn in Hes.
  apply set_eq. intros k.
  rewrite elem_of_dom, elem_of_list_to_set,
    (run_found _ _ _ _ _ Hrun), foldl_record_lookup.
  cbn [start found]. rewrite lookup_empty, Hes.
  rewrite <- (probes_subdomains verbose sel). split.
  - intros [r Hr]. apply firstFor_Some in Hr as [Hin <-].
    by apply list_elem_of_fmap_2.
  - intros Hk. destruct (firstFor_consumed _ _ Hk) as (r & Hr & _).
    by exists r.
Qed.

Lemma consumed_candidates_registered_witness :
  dom (found sampleFinal)
  = list_to_set (consumed [Job "www.example.com" netLive;
                           Job "mail.example.com" netDown; JobsClosed]).
Proof.
  apply (consumed_candidates_registered false
           [Job "www.example.com" netLive; Job "mail.example.com" netDown;
            JobsClosed]
           (mkW (mkChan [mkResult "www.example.com" 200 "1.2.3.4";
                         mkResult "mail.example.com" 0 ""] false)
                [Resolve "www.example.com"; Get "http://www.example.com";
                 Resolve "mail.example.com"; Get "http://mail.example.com";
                 Get "https://mail.example.com"])
           false "example.com" []
           [Consume (mkResult "www.example.com" 200 "1.2.3.4"); CloseJobs;
            Consume (mkResult "mail.example.com" 0 "")]
           sampleFinal).
  - by vm_compute.
  - reflexivity.
  - vm_compute. reflexivity.
Defined.

(** ** Classifier *)

Lemma classifyStep_incr counts r :
  ∃ b, assigned (Status r) b ∧ classifyStep counts r = incr (key b) counts.
Proof.
  destruct (assigned_exists (Status r)) as [b Hb].
  exists b. split; [done|]. by apply classifyStep_assigned.
Qed.

Lemma incr_comm k k' counts :
  incr k (incr k' counts) = incr k' (incr k counts).
Proof.
  destruct (decide (k = k')) as [->|Hne]; [done|].
  unfold incr. rewrite !lookup_insert_ne by done.
  by apply insert_insert_ne.
Qed.

Lemma classifyStep_comm counts r r' :
  classifyStep (classifyStep counts r) r'
  = classifyStep (classifyStep counts r') r.
Proof.
  destruct (assigned_exists (Status r)) as [b Hb].
  destruct (assigned_exists (Status r')) as [b' Hb'].
  rewrite !(classifyStep_assigned _ r b), !(classifyStep_assigned _ r' b')
    by done.
  apply incr_comm.
Qed.

(** X16. The summary counts do not depend on the order in which Go's map
    iteration lists the registry: two enumerations of the same registry
    give the same counts. *)
Theorem classify_order_independent found subs subs' :
  enumerates found subs → enumerates found subs' →
  classify subs = classify subs'.
Proof.
  unfold enumerates. intros H1 H2.
  assert (subs ≡ₚ subs') as Hperm by (by rewrite H1, H2).
  clear H1 H2. unfold classify. generalize counts0.
  induction Hperm as [|r l l' _ IH|r r' l|l l' l'' _ IH1 _ IH2]; intros c.
  - done.
  - cbn. apply IH.
  - cbn. by rewrite classifyStep_comm.
  - by rewrite IH1, IH2.
Qed.

Lemma classify_order_independent_witness :
  classify liveSubs = classify (reverse liveSubs).
Proof.
  apply (classify_order_independent liveFound liveSubs (reverse liveSubs)).
  - apply liveSubs_enumerates.
  - unfold enumerates. rewrite reverse_Permutation. apply liveSubs_enumerates.
Defined.

Lemma incr_dom k (counts : gmap string Z) :
  k ∈ dom counts → dom (incr k counts) = dom counts.
Proof.
  intros Hk. unfold incr. rewrite dom_insert_L.
  apply set_eq. intros x. rewrite elem_of_union, elem_of_singleton.
  split; [intros [->|?]; done|by right].
Qed.

Lemma key_countKeys b : key b ∈ countKeys.
Proof. destruct b; vm_compute; done. Qed.

(** X17. The classifier never makes up a bucket: whatever the results,
    the counts have the five keys they start with and no other. *)
Theorem classify_keys subs : dom (classify subs) = countKeys.
Proof.
  unfold classify.
  assert (dom counts0 = countKeys) as Hdom0 by (by vm_compute).
  revert Hdom0. generalize counts0.
  induction subs as [|r subs IH]; intros c Hc; [done|].
  cbn [foldl]. apply IH.
  destruct (classifyStep_incr c r) as (b & _ & ->).
  rewrite incr_dom; [done|]. rewrite Hc. apply key_countKeys.
Qed.

Lemma tally_cons_assigned b b0 r subs :
  assigned (Status r) b0 →
  tally b (r :: subs) = ((if decide (b = b0) then 1 else 0) + tally b subs)%nat.
Proof.
  intros Hb0. rewrite tally_cons.
  destruct (decide (b = b0)) as [->|Hne].
  - by rewrite decide_True.
  - rewrite decide_False; [done|].
    intros Hb. by apply Hne, (assigned_unique (Status r)).
Qed.

Lemma tally_sum subs :
  (tally unreachable subs + tally notFound subs + tally redirect subs
   + tally live subs + tally other subs = length subs)%nat.
Proof.
  induction subs as [|r subs IH]; [done|].
  destruct (assigned_exists (Status r)) as [b Hb].
  rewrite !(tally_cons_assigned _ b r subs Hb). cbn [length].
  destruct b; repeat case_decide; try done; lia.
Qed.

(** X18. Every registry entry is counted once: as long as the number of
    results fits Go's [int], the five counts of the summary add up to the
    number of results classified. *)
Theorem classify_total subs :
  Z.of_nat (length subs) < 2 ^ 63 →
  ∃ u n r l o,
    classify subs !! "unreachable" = Some u
    ∧ classify subs !! "404" = Some n
    ∧ classify subs !! "301" = Some r
    ∧ classify subs !! "live" = Some l
    ∧ classify subs !! "other" = Some o
    ∧ u + n + r + l + o = Z.of_nat (length subs).
Proof.
  intros Hlen.
  assert (∀ b, classify subs !! key b = Some (0 + Z.of_nat (tally b subs)))
    as Hcount.
  { apply (classify_fold subs counts0 (λ _, 0)); [by intros []|done|].
    intros _. lia. }
  exists (Z.of_nat (tally unreachable subs)), (Z.of_nat (tally notFound subs)),
    (Z.of_nat (tally redirect subs)), (Z.of_nat (tally live subs)),
    (Z.of_nat (tally other subs)).
  split_and!.
  - apply (Hcount unreachable).
  - apply (Hcount notFound).
  - apply (Hcount redirect).
  - apply (Hcount live).
  - apply (Hcount other).
  - pose proof (tally_sum subs). lia.
Qed.

Lemma classify_total_witness :
  ∃ u n r l o,
    classify sampleSubs !! "unreachable" = Some u
    ∧ classify sampleSubs !! "404" = Some n
    ∧ classify sampleSubs !! "301" = Some r
    ∧ classify sampleSubs !! "live" = Some l
    ∧ classify sampleSubs !! "other" = Some o
    ∧ u + n + r + l + o = Z.of_nat (length sampleSubs).
Proof.
  apply (classify_total sampleSubs). vm_compute. reflexivity.
Defined.

(** ** Report *)

Lemma isLive_assigned r :
  isLive r = true ↔ assigned (Status r) live ∨ assigned (Status r) redirect.
Proof.
  unfold isLive. rewrite andb_true_iff, Z.leb_le, Z.ltb_lt. split.
  - intros [Hlo Hhi].
    destruct (decide (Status r = 301 ∨ Status r = 302)) as [Hr|Hr].
    + right. by constructor.
    + left. constructor; [done|tauto..].
  - intros [H|H]; inversion H; subst; lia.
Qed.

Lemma live_lines_count subs :
  length (outLines true subs) = (tally live subs + tally redirect subs)%nat.
Proof.
  unfold outLines. rewrite length_fmap.
  induction subs as [|r subs IH]; [done|].
  rewrite filter_cons, !tally_cons.
  destruct (decide (isLive r = true)) as [Hl|Hl].
  - cbn [length]. rewrite IH. apply isLive_assigned in Hl as [Hl|Hl].
    + rewrite decide_True by done. rewrite decide_False; [lia|].
      intros Hr. by pose proof (assigned_unique _ _ _ Hl Hr).
    + rewrite (decide_True (P := assigned (Status r) redirect)) by done.
      rewrite decide_False; [lia|].
      intros Hr. by pose proof (assigned_unique _ _ _ Hl Hr).
  - rewrite IH. rewrite !decide_False; [lia|..].
    + intros Hr. apply Hl, isLive_assigned. by right.
    + intros Hr. apply Hl, isLive_assigned. by left.
Qed.

(** X19. With the [-x] filter, the report holds exactly the lines of the
    results whose status is in [200, 400), one line per such result, in the
    order the results are listed; no other result reaches the output. *)
Theorem filtered_report_lines subs :
  outLines true subs = line <$> filter (λ r, 200 ≤ Status r < 400) subs
  ∧ outLines true subs `sublist_of` (line <$> subs)
  ∧ ∀ l, l ∈ outLines true subs
         ↔ ∃ r, r ∈ subs ∧ 200 ≤ Status r < 400 ∧ l = line r.
Proof.
  assert (outLines true subs
          = line <$> filter (λ r, 200 ≤ Status r < 400) subs) as Heq.
  { unfold outLines. f_equal. apply list_filter_iff. intros r.
    unfold isLive. by rewrite andb_true_iff, Z.leb_le, Z.ltb_lt. }
  split_and!; [done| |].
  - rewrite Heq. apply fmap_sublist, sublist_filter.
  - intros l. rewrite Heq, list_elem_of_fmap. split.
    + intros (r & -> & Hr). apply list_elem_of_filter in Hr as [Hs Hr].
      by exists r.
    + intros (r & Hr & Hs & ->). exists r. split; [done|].
      apply list_elem_of_filter. by split.
Qed.

(** X20. The [-x] report is longer than the summary's [live] count
    suggests: redirects (301, 302) pass the filter although the summary
    counts them apart, so the report has as many lines as the [live] and
    the redirect counts together. *)
Theorem filtered_report_length subs l r :
  Z.of_nat (length subs) < 2 ^ 63 →
  classify subs !! "live" = Some l → classify subs !! "301" = Some r →
  Z.of_nat (length (outLines true subs)) = l + r.
Proof.
  intros Hlen Hl Hr.
  assert (∀ b, classify subs !! key b = Some (0 + Z.of_nat (tally b subs)))
    as Hcount.
  { apply (classify_fold subs counts0 (λ _, 0)); [by intros []|done|].
    intros _. lia. }
  pose proof (Hcount live) as Hlive. pose proof (Hcount redirect) as Hred.
  cbn [key] in Hlive, Hred. rewrite Hl in Hlive. rewrite Hr in Hred.
  injection Hlive as ->. injection Hred as ->.
  rewrite live_lines_count. lia.
Qed.

Lemma filtered_report_length_witness :
  Z.of_nat (length (outLines true
                      [mkResult "a.example.com" 200 "";
                       mkResult "b.example.com" 301 "";
                       mkResult "c.example.com" 404 ""])) = 1 + 1.
Proof.
  apply (filtered_report_length
           [mkResult "a.example.com" 200 ""; mkResult "b.example.com" 301 "";
            mkResult "c.example.com" 404 ""] 1 1).
  - vm_compute. reflexivity.
  - vm_compute. reflexivity.
  - vm_compute. reflexivity.
Defined.

(** X21. Without the filter the report is a function of the registry
    alone: it is sorted, it has one line per registry entry, and it is the
    same list whatever order the map iteration lists the entries in. *)
Theorem full_report_of_registry found subs subs' :
  enumerates found subs → enumerates found subs' →
  outLines false subs = outLines false subs'
  ∧ Sorted String.le (outLines false subs)
  ∧ outLines false subs ≡ₚ line <$> subs
  ∧ length (outLines false subs) = size found.
Proof.
  unfold enumerates. intros H1 H2.
  assert (Sorted String.le (outLines false subs)) as Hsorted.
  { unfold outLines, sortStrings. apply Sorted_merge_sort. apply _. }
  assert (outLines false subs ≡ₚ line <$> subs) as Hperm.
  { unfold outLines, sortStrings. apply merge_sort_Permutation. }
  split_and!; [|done..|].
  - apply sortStrings_unique; [done|].
    by rewrite Hperm, H1, H2.
  - by rewrite Hperm, length_fmap, H1, length_fmap, length_map_to_list.
Qed.

Lemma full_report_of_registry_witness :
  outLines false liveSubs = outLines false (reverse liveSubs)
  ∧ Sorted String.le (outLines false liveSubs)
  ∧ outLines false liveSubs ≡ₚ line <$> liveSubs
  ∧ length (outLines false liveSubs) = size liveFound.
Proof.
  apply (full_report_of_registry liveFound liveSubs (reverse liveSubs)).
  - apply liveSubs_enumerates.
  - unfold enumerates. rewrite reverse_Permutation. apply liveSubs_enumerates.
Defined.

(** X22. The [-x] report never shows a line the full report would not
    show, and although its order follows the map iteration, its lines as a
    collection do not: two enumerations of the registry give the same lines
    up to order. *)
Theorem filtered_within_full found subs subs' :
  enumerates found subs → enumerates found subs' →
  outLines true subs ⊆+ outLines false subs
  ∧ outLines true subs ≡ₚ outLines true subs'.
Proof.
  unfold enumerates. intros H1 H2. split.
  - unfold outLines, sortStrings. rewrite merge_sort_Permutation.
    apply sublist_submseteq, fmap_sublist, sublist_filter.
  - unfold outLines. by rewrite H1, H2.
Qed.

Lemma filtered_within_full_witness :
  outLines true liveSubs ⊆+ outLines false liveSubs
  ∧ outLines true liveSubs ≡ₚ outLines true (reverse liveSubs).
Proof.
  apply (filtered_within_full liveFound liveSubs (reverse liveSubs)).
  - apply liveSubs_enumerates.
  - unfold enumerates. rewrite reverse_Permutation. apply liveSubs_enumerates.
Defined.

(** ** From probes to report *)

Lemma registry_values rs (f : gmap string Result) :
  NoDup (Subdomain <$> rs) → (∀ r, r ∈ rs → f !! Subdomain r = None) →
  (map_to_list (foldl (λ f r, record r f) f rs)).*2
  ≡ₚ (map_to_list f).*2 ++ rs.
Proof.
  revert f. induction rs as [|r rs IH]; intros f Hnd Hfresh.
  - cbn. by rewrite app_nil_r.
  - cbn [foldl]. cbn [fmap list_fmap] in Hnd.
    apply NoDup_cons in Hnd as [Hr Hnd].
    assert (f !! Subdomain r = None) as Hnone by (apply Hfresh; by left).
    unfold record at 2. rewrite Hnone.
    rewrite IH; [|done|].
    + rewrite map_to_list_insert by done. rewrite fmap_cons. cbn [snd].
      apply Permutation_middle.
    + intros r' Hr'. rewrite lookup_insert_ne; [apply Hfresh; by right|].
      intros Heq. apply Hr. rewrite Heq. by apply list_elem_of_fmap_2.
Qed.

(** X23. When every name that reaches the collector does so once, nothing
    is lost or merged on the way to the report: whatever the order of
    arrival and of the map iteration, the full report is the sorted list
    of the lines of all results consumed. *)
Theorem report_of_probes deep domain seeded es p subs :
  NoDup (Subdomain <$> consumedResults es) →
  run deep domain es (start seeded) = Done p →
  enumerates (found p) subs →
  outLines false subs = sortStrings (line <$> consumedResults es)
  ∧ size (found p) = length (consumedResults es).
Proof.
  intros Hnd Hrun Henum. unfold enumerates in Henum.
  assert ((map_to_list (found p)).*2 ≡ₚ consumedResults es) as Hvalues.
  { rewrite (run_found _ _ _ _ _ Hrun). cbn [start found].
    rewrite registry_values; [by rewrite map_to_list_empty|done|].
    intros r _. apply lookup_empty. }
  split.
  - apply sortStrings_unique.
    + unfold outLines, sortStrings. apply Sorted_merge_sort. apply _.
    + unfold outLines, sortStrings.
      by rewrite merge_sort_Permutation, Henum, Hvalues.
  - by rewrite <- (length_map_to_list (found p)),
      <- (length_fmap snd (map_to_list (found p))), Hvalues.
Qed.

Lemma report_of_probes_witness :
  outLines false sampleSubs
  = sortStrings (line <$> [mkResult "www.example.com" 200 "1.2.3.4";
                           mkResult "mail.example.com" 0 ""])
  ∧ size (found sampleFinal) = 2%nat.
Proof.
  apply (report_of_probes false "example.com" []
           [Consume (mkResult "www.example.com" 200 "1.2.3.4"); CloseJobs;
            Consume (mkResult "mail.example.com" 0 "")]
           sampleFinal sampleSubs).
  - cbn. apply NoDup_cons. split; [|apply NoDup_singleton].
    intros Hin%list_elem_of_singleton. discriminate Hin.
  - vm_compute. reflexivity.
  - apply sampleSubs_enumerates.
Defined.
